(** * Gradebook Analyzer (gradebok.py): a shallow embedding and its properties

    The Python program is embedded function by function.  Python values are
    modelled as follows.
    - [int] is unbounded, hence [Z].
    - [float] is a binary64 number ([spec_float] of the Standard Library);
      true division [/] of two ints is the exact quotient rounded to the
      nearest binary64, ties to even, and raises [OverflowError] when that
      is too large.  [float_val] gives the rational that a float denotes.
    - [str] is [string].
    - [dict] is an association list in insertion order, without duplicate
      keys; assigning to a key that is present replaces the value in place,
      assigning to an absent key appends an entry (the insertion order
      semantics of Python 3.7 and later).
    - an exception is the [Raise] case of the [result] monad. *)

From Stdlib Require Import ZArith QArith Qcanon Ascii String SpecFloat.
From stdpp Require Import base tactics option numbers list sorting strings
  pretty.

Local Open Scope Z_scope.
Local Open Scope string_scope.
Local Open Scope list_scope.

(** ** Exceptions and the result monad *)

Inductive exn : Set :=
  | ValueError
  | ZeroDivisionError
  | OverflowError
  | StopIteration
  | StatisticsError
  | IndexError
  | KeyError.

Inductive result (A : Type) : Type :=
  | Ok (a : A)
  | Raise (e : exn).
Arguments Ok {A} a.
Arguments Raise {A} e.

#[global] Instance result_ret : MRet result := λ A a, Ok a.
#[global] Instance result_bind : MBind result := λ A B f m,
  match m with
  | Ok a => f a
  | Raise e => Raise e
  end.
#[global] Instance result_throw : MThrow exn result := λ A e, Raise e.

(** ** Numbers *)

(** A Python [float]: a binary64 number. *)
Definition float : Set := spec_float.

(** The literal [0.0]. *)
Definition float_zero : float := S754_zero false.

(** [2 ** e] as a rational. *)
Definition pow2 (e : Z) : Qc :=
  if decide (0 <= e) then Qc_of_Z (2 ^ e) else (/ Qc_of_Z (2 ^ (- e)))%Qc.

(** The rational that a float denotes; both zeros denote 0.  The division
    below gives no infinity and no NaN, which are given 0 here. *)
Definition float_val (x : float) : Qc :=
  match x with
  | S754_finite s m e =>
      let v := (Qc_of_Z (Z.pos m) * pow2 e)%Qc in if s then (- v)%Qc else v
  | _ => 0%Qc
  end.

(** A value that is an [int] or a [float], as [statistics.median] returns. *)
Inductive number : Set :=
  | PyInt (z : Z)
  | PyFloat (x : float).

(** The numeric value; Python's [==] on numbers compares these. *)
Definition num_val (n : number) : Qc :=
  match n with
  | PyInt z => Qc_of_Z z
  | PyFloat x => float_val x
  end.

(** The positive quotient [a / (b * 2 ** e)] as a fraction of integers. *)
Definition scaled (a b e : Z) : Z * Z :=
  if decide (0 <= e) then (a, b * 2 ^ e) else (a * 2 ^ (- e), b).

(** The exponent of the last binary place that binary64 keeps of the
    positive quotient [a / b]: the one that leaves 53 significant bits, and
    not less than -1074, where the subnormal numbers begin. *)
Definition binade (a b : Z) : Z :=
  let e1 := Z.log2 a - Z.log2 b - 52 in
  let '(n, d) := scaled a b e1 in
  let e2 := if decide (n `div` d < 2 ^ 52) then e1 - 1 else e1 in
  Z.max e2 (-1074).

(** The integer nearest to [n / d], the even one of two equally near. *)
Definition round_half_even (n d : Z) : Z :=
  let m := n `div` d in
  let r := n `mod` d in
  if decide (2 * r < d) then m
  else if decide (d < 2 * r) then m + 1
  else if Z.even m then m else m + 1.

(** [a / b] on two ints: [ZeroDivisionError] for a zero divisor; else the
    exact quotient rounded once to the nearest binary64 (a zero keeps the
    sign of the quotient); [OverflowError] when the rounded quotient is
    beyond the largest float. *)
Definition py_truediv (a b : Z) : result float :=
  if decide (b = 0) then mthrow ZeroDivisionError
  else
    let negative := xorb (bool_decide (a < 0)) (bool_decide (b < 0)) in
    if decide (a = 0) then mret (S754_zero negative)
    else
      let e := binade (Z.abs a) (Z.abs b) in
      let '(n, d) := scaled (Z.abs a) (Z.abs b) e in
      let m := round_half_even n d in
      let '(m, e) := if decide (m = 2 ^ 53) then (2 ^ 52, e + 1) else (m, e) in
      if decide (m = 0) then mret (S754_zero negative)
      else if decide (e <= 971) then
        mret (S754_finite negative (Z.to_pos m) e)
      else mthrow OverflowError.

(** The division of IEEE 754 as the Standard Library specifies it, on the
    two ints taken as they are, against which [py_truediv] is checked. *)
Definition int_operand (z : Z) : spec_float :=
  match z with
  | Z0 => S754_zero false
  | Zpos p => S754_finite false p 0
  | Zneg p => S754_finite true p 0
  end.

Definition ieee_div (a b : Z) : spec_float :=
  SFdiv 53 1024 (int_operand a) (int_operand b).

#[global] Instance spec_float_eq_dec : EqDecision spec_float.
Proof. solve_decision. Defined.

Definition agrees_with_ieee (a b : Z) : bool :=
  match py_truediv a b with
  | Ok x => bool_decide (b ≠ 0 ∧ x = ieee_div a b)
  | Raise OverflowError =>
      match ieee_div a b with S754_infinity _ => true | _ => false end
  | Raise ZeroDivisionError => bool_decide (b = 0)
  | Raise _ => false
  end.


(** ** Built-in sequences *)

(** [sum(xs)]: starts from 0 and adds from the left. *)
Definition py_sum (xs : list Z) : Z := foldl Z.add 0 xs.

(** [len(xs)]. *)
Definition py_len {A} (xs : list A) : Z := Z.of_nat (length xs).

(** [max(xs)]: the first largest item; [ValueError] on an empty sequence. *)
Definition py_max (xs : list Z) : result Z :=
  match xs with
  | [] => mthrow ValueError
  | x :: xs' => mret (foldl (λ m y, if decide (m < y) then y else m) x xs')
  end.

(** [min(xs)]: the first smallest item; [ValueError] on an empty sequence. *)
Definition py_min (xs : list Z) : result Z :=
  match xs with
  | [] => mthrow ValueError
  | x :: xs' => mret (foldl (λ m y, if decide (y < m) then y else m) x xs')
  end.

(** [next(it)] on a generator whose remaining items are [xs]. *)
Definition py_next {A} (xs : list A) : result A :=
  match xs with
  | [] => mthrow StopIteration
  | x :: _ => mret x
  end.

(** [xs[i]]: a negative index counts from the end. *)
Definition list_getitem {A} (xs : list A) (i : Z) : result A :=
  let j := if decide (i < 0) then i + py_len xs else i in
  if decide (j < 0) then mthrow IndexError
  else match xs !! Z.to_nat j with
       | Some x => mret x
       | None => mthrow IndexError
       end.

(** [sorted(xs)] on ints, ascending. *)
Definition sorted (xs : list Z) : list Z := merge_sort Z.le xs.

(** ** Dictionaries *)

(** A dict with [str] keys: its items in insertion order. *)
Abbreviation dict V := (list (string * V)).

Section Dict.
Context {V : Type}.

(** [d[k] = v] *)
Fixpoint dict_setitem (d : dict V) (k : string) (v : V) : dict V :=
  match d with
  | [] => [(k, v)]
  | (k', v') :: d' =>
      if decide (k' = k) then (k', v) :: d'
      else (k', v') :: dict_setitem d' k v
  end.

(** [d.get(k)] *)
Fixpoint dict_get (d : dict V) (k : string) : option V :=
  match d with
  | [] => None
  | (k', v') :: d' => if decide (k' = k) then Some v' else dict_get d' k
  end.

(** [d[k]] *)
Definition dict_getitem (d : dict V) (k : string) : result V :=
  match dict_get d k with
  | Some v => mret v
  | None => mthrow KeyError
  end.

(** [d.items()], [d.keys()], [d.values()] and [not d] *)
Definition items (d : dict V) : list (string * V) := d.
Definition keys (d : dict V) : list string := d.*1.
Definition values (d : dict V) : list V := d.*2.
Definition is_empty (d : dict V) : bool :=
  match d with [] => true | _ => false end.

(** What every Python dict satisfies: its keys are pairwise distinct. *)
Definition dict_wf (d : dict V) : Prop := NoDup (keys d).
End Dict.

(** ** Global constants *)

Definition PASS_THRESHOLD : Z := 40.

(** ** The statistics module *)

#[global] Instance result_fmap : FMap result := λ A B f m,
  match m with
  | Ok a => Ok (f a)
  | Raise e => Raise e
  end.

(** [statistics.median(data)] of the standard library: the data are sorted;
    an odd count returns the middle item as it is (an [int] here), an even
    count returns the two middle items added and divided by 2 (a [float]). *)
Definition median (data : list Z) : result number :=
  let data := sorted data in
  let n := py_len data in
  if decide (n = 0) then mthrow StatisticsError
  else if decide (n `mod` 2 = 1) then
    PyInt <$> list_getitem data (n `div` 2)
  else
    let i := n `div` 2 in
    a ← list_getitem data (i - 1);
    b ← list_getitem data i;
    PyFloat <$> py_truediv (a + b) 2.

(** ** Task 3: statistical analysis *)

Definition calculate_average (marks_dict : dict Z) : result float :=
  if is_empty marks_dict then mret float_zero
  else py_truediv (py_sum (values marks_dict)) (py_len marks_dict).

Definition calculate_median (marks_dict : dict Z) : result number :=
  if is_empty marks_dict then mret (PyFloat float_zero)
  else median (values marks_dict).

Definition find_max_score (marks_dict : dict Z) : result (string * Z) :=
  if is_empty marks_dict then mret ("N/A", 0)
  else
    max_mark ← py_max (values marks_dict);
    top_student ←
      py_next (filter (λ item, item.2 = max_mark) (items marks_dict)).*1;
    mret (top_student, max_mark).

Definition find_min_score (marks_dict : dict Z) : result (string * Z) :=
  if is_empty marks_dict then mret ("N/A", 0)
  else
    min_mark ← py_min (values marks_dict);
    bottom_student ←
      py_next (filter (λ item, item.2 = min_mark) (items marks_dict)).*1;
    mret (bottom_student, min_mark).

(** ** Task 4: grade assignment *)

Definition assign_grade (score : Z) : string :=
  if decide (score >= 90) then "A"
  else if decide (score >= 80) then "B"
  else if decide (score >= 70) then "C"
  else if decide (score >= 60) then "D"
  else "F".

(** A [for] loop whose body may raise: the state is threaded through the
    items from the left and the first exception ends the loop. *)
Fixpoint for_each {A S} (body : S → A → result S) (xs : list A) (st : S)
    : result S :=
  match xs with
  | [] => mret st
  | x :: xs' => st' ← body st x; for_each body xs' st'
  end.

(** The body of the loop of [generate_grades_and_distribution]; the state is
    the pair of [grades_dict] and [distribution]. *)
Definition grade_item (st : dict string * dict Z) (item : string * Z)
    : result (dict string * dict Z) :=
  let '(grades_dict, distribution) := st in
  let '(name, mark) := item in
  let grade := assign_grade mark in
  let grades_dict := dict_setitem grades_dict name grade in
  count ← dict_getitem distribution grade;
  mret (grades_dict, dict_setitem distribution grade (count + 1)).

Definition generate_grades_and_distribution (marks_dict : dict Z)
    : result (dict string * dict Z) :=
  let grades_dict : dict string := [] in
  let distribution : dict Z :=
    [("A", 0); ("B", 0); ("C", 0); ("D", 0); ("F", 0)] in
  for_each grade_item (items marks_dict) (grades_dict, distribution).

(** The shape of [distribution] all along the loop. *)
Definition distribution_of (a b c d f : Z) : dict Z :=
  [("A", a); ("B", b); ("C", c); ("D", d); ("F", f)].

(** What [grades_dict] is after the loop when it was [grades_dict] before. *)
Definition graded (grades_dict : dict string) (l : list (string * Z))
    : dict string :=
  foldl (λ g item, dict_setitem g item.1 (assign_grade item.2)) grades_dict l.

(** ** Task 5: pass/fail filter *)

Definition filter_pass_fail (marks_dict : dict Z) : list string * list string :=
  let passed_students :=
    (filter (λ item, item.2 >= PASS_THRESHOLD) (items marks_dict)).*1 in
  let failed_students :=
    (filter (λ item, item.2 < PASS_THRESHOLD) (items marks_dict)).*1 in
  (passed_students, failed_students).

(** ** Task 2: CSV import *)

(** What the import prints, one constructor per [print] call. *)
Inductive message : Type :=
  | SkipOutOfRange (name : string) (mark : Z)
  | SkipInvalidMark (name raw : string)
  | SkipIncompleteRow (row : list string)
  | NoValidData
  | Imported (count : Z)
  | FileNotFound (file_name : string)
  | AskFileName
  | ImportBanner (file_name : string)
  | ImportFailed (error : string).

(** What opening and reading a file does: [open] raises
    [FileNotFoundError]; or the reader yields [rows] and then ends, or
    raises another exception, whose text is [failure] ([open] raising one is
    the case without rows). *)
Inductive file_read : Type :=
  | NoSuchFile
  | ReadsRows (rows : list (list string)) (failure : option string).

(** How [import_csv_data] ends on the lines that standard input holds: it
    returns [marks] with the lines left unread, or [input] finds no line and
    raises [EOFError], which nothing catches. *)
Inductive import_outcome : Type :=
  | ImportReturns (roster : dict Z) (rest : list string)
      (output : list message)
  | ImportEndOfInput (output : list message).

(** The variables of the loop over the rows of the file. *)
Record import_state : Type := ImportState {
  marks : dict Z;
  header_skipped : bool;
  printed : list message
}.

Definition print (msg : message) (st : import_state) : import_state :=
  ImportState (marks st) (header_skipped st) (printed st ++ [msg])%list.

Section CsvImport.
(** [str.strip] and [int] on a string ([None] is [ValueError]) are the
    interpreter's; the import is stated over any such pair. *)
Variable strip : string → string.
Variable int : string → option Z.

(** One iteration of [for row in reader]. *)
Definition import_row (st : import_state) (row : list string) : import_state :=
  if negb (header_skipped st) then
    ImportState (marks st) true (printed st)
  else
    match row with
    | field0 :: field1 :: _ =>            (* len(row) >= 2 *)
        let name := strip field0 in
        match int (strip field1) with
        | Some mark =>
            if decide (0 <= mark <= 100) then
              ImportState (dict_setitem (marks st) name mark)
                          (header_skipped st) (printed st)
            else print (SkipOutOfRange name mark) st
        | None => print (SkipInvalidMark name field1) st
        end
    | [] => st
    | _ => print (SkipIncompleteRow row) st   (* elif row *)
    end.

(** The loop, from [marks = {}] and [header_skipped = False]. *)
Definition import_rows (rows : list (list string)) : import_state :=
  foldl import_row (ImportState [] false []) rows.

(** [import_csv_data] with the file system as an argument: [files] tells
    what opening and reading the file of a given name does.  The file name
    is the first line of standard input, stripped.  An exception other than
    [FileNotFoundError] leaves the loop where it is raised: what the rows
    before it did stays done, and its text is printed instead of the summary
    of the import. *)
Definition import_csv_data (files : string → file_read)
    (lines : list string) : import_outcome :=
  match lines with
  | [] => ImportEndOfInput [AskFileName]
  | line :: lines =>
      let file_name := strip line in
      let banner := [AskFileName; ImportBanner file_name] in
      match files file_name with
      | NoSuchFile =>
          ImportReturns [] lines (banner ++ [FileNotFound file_name])
      | ReadsRows rows failure =>
          let st := import_rows rows in
          ImportReturns (marks st) lines
            (banner ++ printed st ++
               [match failure with
                | Some error => ImportFailed error
                | None =>
                    if is_empty (marks st) then NoValidData
                    else Imported (py_len (marks st))
                end])
      end
  end.

(** The records of the file that the import accepts, in file order: the
    rows after the header that have two fields or more and whose second
    field is an integer between 0 and 100. *)
Definition valid_record (row : list string) : option (string * Z) :=
  match row with
  | field0 :: field1 :: _ =>
      mark ← int (strip field1);
      if decide (0 <= mark <= 100) then Some (strip field0, mark) else None
  | _ => None
  end.

Definition valid_records (rows : list (list string)) : list (string * Z) :=
  omap valid_record (tail rows).
End CsvImport.

(** A row that the import reports: it is not blank and not a valid record. *)
Definition reported (strip : string → string) (int : string → option Z)
    (row : list string) : Prop :=
  row ≠ [] ∧ valid_record strip int row = None.

#[global] Instance reported_dec strip int row : Decision (reported strip int row).
Proof. unfold reported. apply _. Defined.

(** The identifiers of [l] in the order of their first occurrences. *)
Fixpoint first_occurrences (l : list string) : list string :=
  match l with
  | [] => []
  | x :: l' => x :: filter (λ y, y ≠ x) (first_occurrences l')
  end.

(** The identifiers of [l] in the order of their last occurrences. *)
Fixpoint last_occurrences (l : list string) : list string :=
  match l with
  | [] => []
  | x :: l' =>
      if decide (x ∈ l') then last_occurrences l'
      else x :: last_occurrences l'
  end.

(** The score of the last record of [recs] that carries [name]. *)
Definition last_score (recs : list (string * Z)) (name : string) : option Z :=
  snd <$> last (filter (λ r, r.1 = name) recs).

(** An instance of [int] and [str.strip] for concrete files: decimal ASCII
    digits with an optional sign, between ASCII blanks (digit separators and
    digits of other scripts, which [int] also reads, are left out). *)
Definition digit_value (c : ascii) : option Z :=
  let n := Z.of_N (N_of_ascii c) in
  if decide (48 <= n <= 57) then Some (n - 48) else None.

Fixpoint digits_value (acc : Z) (s : string) : option Z :=
  match s with
  | EmptyString => Some acc
  | String c s' => d ← digit_value c; digits_value (10 * acc + d) s'
  end.

Definition int_ascii (s : string) : option Z :=
  match s with
  | EmptyString => None
  | String "-" (String _ _ as s') => Z.opp <$> digits_value 0 s'
  | String "+" (String _ _ as s') => digits_value 0 s'
  | _ => digits_value 0 s
  end.

Definition is_blank (c : ascii) : bool :=
  bool_decide (c ∈ [" "; "009"; "010"; "011"; "012"; "013"]%char).

Fixpoint lstrip (s : string) : string :=
  match s with
  | String c s' => if is_blank c then lstrip s' else s
  | EmptyString => s
  end.

Definition strip_ascii (s : string) : string :=
  String.rev (lstrip (String.rev (lstrip s))).

(** ** Task 2: manual entry *)

(** What the manual entry writes: the banner, the two prompts of [input]
    and the two complaints. *)
Inductive entry_message : Type :=
  | EntryBanner
  | AskName
  | AskMark (name : string)
  | MarkOutOfRange
  | InvalidMark.

(** How [manual_data_entry] ends on the lines that standard input holds:
    it returns [marks] with the lines left unread, or [input] finds no line
    and raises [EOFError], which nothing catches. *)
Inductive entry_outcome : Type :=
  | Entered (marks : dict Z) (rest : list string)
      (printed : list entry_message)
  | EndOfInput (printed : list entry_message).

Section ManualEntry.
(** [str.strip], [str.lower] and [int] ([None] is [ValueError]) are the
    interpreter's. *)
Variable strip : string → string.
Variable lower : string → string.
Variable int : string → option Z.

(** The [while True] loop: [lines] are the lines still to be read. *)
Fixpoint entry_loop (lines : list string) (marks : dict Z)
    (printed : list entry_message) : entry_outcome :=
  let printed := printed ++ [AskName] in
  match lines with
  | [] => EndOfInput printed
  | line :: lines =>
      let name := strip line in
      if decide (lower name = "done") then Entered marks lines printed
      else
        let printed := printed ++ [AskMark name] in
        match lines with
        | [] => EndOfInput printed
        | line :: lines =>
            match int (strip line) with
            | Some mark =>
                if decide (0 <= mark <= 100) then
                  entry_loop lines (dict_setitem marks name mark) printed
                else entry_loop lines marks (printed ++ [MarkOutOfRange])
            | None => entry_loop lines marks (printed ++ [InvalidMark])
            end
        end
  end.

Definition manual_data_entry (lines : list string) : entry_outcome :=
  entry_loop lines [] [EntryBanner].

(** The record that a name line and a mark line enter, if any. *)
Definition entered_record (entry : string * string) : option (string * Z) :=
  mark ← int (strip entry.2);
  if decide (0 <= mark <= 100) then Some (strip entry.1, mark) else None.

(** The name line ends the entry. *)
Definition ends_entry (line : string) : Prop := lower (strip line) = "done".
(** What the loop keeps true of [marks]. *)
Definition entry_invariant (marks : dict Z) : Prop :=
  dict_wf marks ∧
  Forall (λ score, 0 <= score <= 100) (values marks) ∧
  Forall (λ name, lower name ≠ "done") (keys marks).
End ManualEntry.

(** The lines that typing the entries one after the other gives. *)
Definition typed_lines (entries : list (string * string)) : list string :=
  entries ≫= λ entry, [entry.1; entry.2].

(** An instance of [str.lower] for concrete input: the ASCII letters. *)
Definition lower_char (c : ascii) : ascii :=
  let n := N_of_ascii c in
  if decide (65 <= n <= 90)%N then ascii_of_N (n + 32) else c.

Fixpoint lower_ascii (s : string) : string :=
  match s with
  | EmptyString => EmptyString
  | String c s' => String (lower_char c) (lower_ascii s')
  end.

(** ** Task 6: the results table *)

(** [s * n] on a string. *)
Fixpoint str_repeat (s : string) (n : nat) : string :=
  match n with
  | O => ""
  | S n' => s +:+ str_repeat s n'
  end.

(** The format [{s:<width}] of a string: spaces are added on the right up to
    [width] characters; a longer string is left as it is. *)
Definition ljust (s : string) (width : nat) : string :=
  s +:+ str_repeat " " (width - String.length s).

(** [str(z)] for an int: its decimal digits, after a minus sign when it is
    negative; [{z:<width}] pads it like a string. *)
Definition str_of_int (z : Z) : string := pretty z.

Definition NAME_WIDTH : nat := 20.
Definition MARKS_WIDTH : nat := 10.
Definition GRADE_WIDTH : nat := 10.

(** The three f-strings of a table line, joined. *)
Definition table_line (name marks grade : string) : string :=
  (ljust name NAME_WIDTH +:+ " ") +:+ (ljust marks MARKS_WIDTH +:+ " ")
    +:+ ljust grade GRADE_WIDTH.

(** The line of one student; the grade is [grades_dict.get(name, "N/A")]. *)
Definition table_row (grades_dict : dict string) (item : string * Z) : string :=
  let '(name, mark) := item in
  let grade := default "N/A" (dict_get grades_dict name) in
  table_line name (str_of_int mark) grade.

(** [print_results_table]: the strings given to [print], one per call. *)
Definition print_results_table (marks_dict : dict Z)
    (grades_dict : dict string) : list string :=
  if is_empty marks_dict then [String "010" "No results to display."]
  else
    [String "010" (str_repeat "=" 50);
     " Final Gradebook Results Table";
     str_repeat "=" 50;
     table_line "Name" "Marks" "Grade";
     str_repeat "-" (NAME_WIDTH + MARKS_WIDTH + GRADE_WIDTH + 4)]
    ++ (table_row grades_dict <$> items marks_dict)
    ++ [str_repeat "=" 50].

(** ** Measures used in the statements *)


(** The score-range invariant of a roster: every score is from 0 to 100. *)
Definition score_range (marks_dict : dict Z) : Prop :=
  Forall (λ score, 0 <= score <= 100) (values marks_dict).

(** The rank of a letter grade, from F up to A. *)
Definition grade_rank (grade : string) : Z :=
  if decide (grade = "A") then 4
  else if decide (grade = "B") then 3
  else if decide (grade = "C") then 2
  else if decide (grade = "D") then 1
  else 0.

(** How many entries of a roster get the letter [grade]. *)
Definition grade_count (grade : string) (l : list (string * Z)) : Z :=
  py_len (filter (λ item, assign_grade item.2 = grade) l).

(** ** The rosters of the examples *)

(** The file that the comment in [main_program_loop] proposes. *)
Definition class_roster : dict Z :=
  [("Alice", 78); ("Bob", 92); ("Charlie", 65); ("Diana", 83);
   ("Evan", 55); ("Fiona", 95); ("George", 39); ("Helen", 72)].


(** Two students share the highest score. *)
Definition tie_roster : dict Z := [("A", 90); ("B", 90); ("C", 40)].

(** A file in which the identifier A comes twice, around B. *)
Definition duplicate_rows : list (list string) :=
  [["Name"; "Mark"]; ["A"; "1"]; ["B"; "2"]; ["A"; "3"]].

(** [marks[name] = mark] for each accepted record in turn. *)
Definition record_all (d : dict Z) (recs : list (string * Z)) : dict Z :=
  foldl (λ d r, dict_setitem d r.1 r.2) d recs.

(** * Properties *)

(** ** Grade assignment *)

Ltac grade_cases := unfold assign_grade; repeat case_decide; try lia; auto.

(** C1: for every integer score in [0,100], [assign_grade] is the step
    function with the boundaries 90, 80, 70, 60 tested from the highest down:
    at least 90 gives A, 80 to 89 gives B, 70 to 79 gives C, 60 to 69 gives D
    and less than 60 gives F; in particular 90 gives A, 89 gives B, 60 gives D
    and 59 gives F. *)
Theorem assign_grade_step (score : Z) :
  0 <= score <= 100 →
  (score >= 90 → assign_grade score = "A") ∧
  (80 <= score < 90 → assign_grade score = "B") ∧
  (70 <= score < 80 → assign_grade score = "C") ∧
  (60 <= score < 70 → assign_grade score = "D") ∧
  (score < 60 → assign_grade score = "F") ∧
  assign_grade 90 = "A" ∧ assign_grade 89 = "B" ∧
  assign_grade 60 = "D" ∧ assign_grade 59 = "F".
Proof.
  intros _. repeat split; try reflexivity; intros; grade_cases.
Qed.

Lemma assign_grade_step_witness :
  0 <= 85 <= 100 ∧ assign_grade 85 = "B".
Proof.
  split; [lia|].
  refine (proj1 (proj2 (assign_grade_step 85 _)) _); lia.
Defined.

(** C10: [assign_grade] is total on the integers: every score gets one of the
    five letters, every negative score gets F and every score above 100 gets
    A. *)
Theorem assign_grade_total (score : Z) :
  assign_grade score ∈ ["A"; "B"; "C"; "D"; "F"] ∧
  (score < 0 → assign_grade score = "F") ∧
  (score > 100 → assign_grade score = "A").
Proof.
  split; [|split; intros; grade_cases].
  unfold assign_grade; repeat case_decide; rewrite !elem_of_cons; tauto.
Qed.

Lemma assign_grade_total_witness :
  -5 < 0 ∧ 101 > 100 ∧ assign_grade (-5) = "F" ∧ assign_grade 101 = "A".
Proof.
  split; [lia|]. split; [lia|]. split.
  - apply (proj1 (proj2 (assign_grade_total (-5)))). lia.
  - apply (proj2 (proj2 (assign_grade_total 101))). lia.
Defined.

(** ** The empty roster and the scenario roster *)

(** Rationals in lowest terms are equal when they are equal as fractions. *)
Lemma Ok_Qc_eq (x y : Qc) : (this x == this y)%Q → Ok x = Ok y.
Proof. intros H. f_equal. by apply Qc_is_canon. Qed.

Lemma float_result_val (r : result float) (x : float) (q : Qc) :
  r = Ok x → (this (float_val x) == this q)%Q → float_val <$> r = Ok q.
Proof. intros -> H. by apply Ok_Qc_eq. Qed.

Lemma number_result_val (r : result number) (n : number) (q : Qc) :
  r = Ok n → (this (num_val n) == this q)%Q → num_val <$> r = Ok q.
Proof. intros -> H. by apply Ok_Qc_eq. Qed.

(** C5: on the empty roster every analysis returns its sentinel and none
    raises: average 0.0, median 0.0, maximum and minimum ("N/A", 0), all five
    counts 0, and two empty lists. *)
Theorem empty_roster_sentinels :
  calculate_average [] = Ok float_zero ∧
  calculate_median [] = Ok (PyFloat float_zero) ∧
  find_max_score [] = Ok ("N/A", 0) ∧
  find_min_score [] = Ok ("N/A", 0) ∧
  generate_grades_and_distribution [] =
    Ok ([], [("A", 0); ("B", 0); ("C", 0); ("D", 0); ("F", 0)]) ∧
  filter_pass_fail [] = ([], []).
Proof. repeat split. Qed.

(** C8, as the specification states it, fails: on the scenario roster the
    median is not 73.5 and the distribution is not A:2, B:2, C:2, D:0, F:2. *)
Lemma scenario_as_specified_fails :
  num_val <$> calculate_median class_roster ≠ Ok (Q2Qc (735 # 10)) ∧
  snd <$> generate_grades_and_distribution class_roster ≠
    Ok [("A", 2); ("B", 2); ("C", 2); ("D", 0); ("F", 2)].
Proof.
  split; intros H; vm_compute in H; discriminate H.
Qed.

(** C8, amended: on the scenario roster the average is 72.375, the median is
    75.0 (the mean of 72 and 78), the maximum is ("Fiona", 95), the minimum
    is ("George", 39), the distribution is A:2, B:1, C:2, D:1, F:2, George
    alone failed and the seven others passed, in roster order. *)
Theorem scenario_results :
  float_val <$> calculate_average class_roster = Ok (Q2Qc (72375 # 1000)) ∧
  (∃ x, calculate_median class_roster = Ok (PyFloat x) ∧
        float_val x = Q2Qc (75 # 1)) ∧
  find_max_score class_roster = Ok ("Fiona", 95) ∧
  find_min_score class_roster = Ok ("George", 39) ∧
  snd <$> generate_grades_and_distribution class_roster =
    Ok [("A", 2); ("B", 1); ("C", 2); ("D", 1); ("F", 2)] ∧
  filter_pass_fail class_roster =
    (["Alice"; "Bob"; "Charlie"; "Diana"; "Evan"; "Fiona"; "Helen"],
     ["George"]).
Proof.
  split.
  { eapply float_result_val; [by vm_compute|by vm_compute]. }
  split.
  { eexists. split; [by vm_compute|]. apply Qc_is_canon. by vm_compute. }
  repeat split.
Qed.

(** ** True division *)

(** On a grid of small ints and on ints beyond the range of binary64,
    [py_truediv] is the division of IEEE 754: same float, sign of zero
    included, and [OverflowError] where that division gives an infinity. *)
Lemma py_truediv_is_ieee_division :
  forallb (λ a, forallb (agrees_with_ieee a) (seqZ (-2) 10)) (seqZ (-10) 111)
    = true ∧
  forallb (λ a, forallb (agrees_with_ieee (2 ^ 1024 - a * 2 ^ 969)) [1; -7])
    [-1; 0; 1; 2; 3] = true ∧
  forallb (λ a, forallb (λ b, agrees_with_ieee a (2 ^ 1070 + b * 2 ^ 1021))
                  [0; 3; 4])
    [1; 3; -7; 2 ^ 53 + 1] = true.
Proof. split_and!; by vm_compute. Qed.

Lemma Qc_of_Z_pos (n : Z) : 0 < n → (0 < Qc_of_Z n)%Qc.
Proof. intros Hn. rewrite <- Z2Qc_inj_0. by apply (proj1 (Z2Qc_inj_lt 0 n)). Qed.

Lemma Qc_of_Z_nonzero (n : Z) : n ≠ 0 → Qc_of_Z n ≠ 0%Qc.
Proof. intros Hn. rewrite <- Z2Qc_inj_0. by intros ?%Z2Qc_inj. Qed.

Lemma pow2_scale (j k : Z) :
  0 <= j → 0 <= k → (pow2 (j - k) * Qc_of_Z (2 ^ k))%Qc = Qc_of_Z (2 ^ j).
Proof.
  intros Hj Hk. unfold pow2. case_decide.
  - rewrite <- Z2Qc_inj_mul, <- Z.pow_add_r by lia. f_equal. f_equal. lia.
  - replace (2 ^ k) with (2 ^ (- (j - k)) * 2 ^ j)
      by (rewrite <- Z.pow_add_r by lia; f_equal; lia).
    rewrite Z2Qc_inj_mul, Qcmult_assoc, Qcmult_inv_l, Qcmult_1_l; [done|].
    apply Qc_of_Z_nonzero. apply Z.pow_nonzero; lia.
Qed.

Lemma round_half_even_spec (n d : Z) :
  0 < d → 0 <= n →
  n `div` d <= round_half_even n d <= n `div` d + 1 ∧
  2 * Z.abs (n - round_half_even n d * d) <= d ∧
  (round_half_even n d = n `div` d + 1 → 0 < n `mod` d).
Proof.
  intros Hd Hn. unfold round_half_even.
  pose proof (Z.div_mod n d ltac:(lia)) as Hdiv.
  pose proof (Z.mod_pos_bound n d Hd) as Hmod.
  repeat case_decide; try destruct (Z.even _); split_and!; try lia.
Qed.

Lemma binade_small (a b : Z) :
  0 < a → 0 < b → a < 2 ^ 7 * b → binade a b <= -45.
Proof.
  intros Ha Hb Hab. unfold binade.
  assert (Z.log2 a <= Z.log2 b + 7) as Hlog.
  { apply Z.lt_succ_r, Z.log2_lt_pow2; [done|].
    pose proof (Z.log2_spec b Hb) as [_ Hb2].
    replace (Z.succ (Z.log2 b + 7)) with (7 + Z.succ (Z.log2 b)) by lia.
    rewrite Z.pow_add_r by (pose proof (Z.log2_nonneg b); lia). nia. }
  destruct (scaled a b _) as [n d]. case_decide; lia.
Qed.

Lemma float_val_scaled (m j k : Z) :
  0 < m → 0 <= j → 0 <= k →
  (float_val (S754_finite false (Z.to_pos m) (j - k)) * Qc_of_Z (2 ^ k))%Qc =
    Qc_of_Z (m * 2 ^ j).
Proof.
  intros Hm Hj Hk. simpl. rewrite Z2Pos.id by done.
  by rewrite <- Qcmult_assoc, pow2_scale, <- Z2Qc_inj_mul.
Qed.

Lemma py_truediv_spec (a b lo hi : Z) :
  0 < b → 0 <= lo → hi < 2 ^ 7 → lo * b <= a <= hi * b →
  ∃ f m k,
    py_truediv a b = Ok f ∧ 45 <= k ∧
    (float_val f * Qc_of_Z (2 ^ k))%Qc = Qc_of_Z m ∧
    lo * 2 ^ k <= m <= hi * 2 ^ k ∧
    2 * Z.abs (a * 2 ^ k - m * b) <= b.
Proof.
  intros Hb Hlo Hhi Hab. unfold py_truediv.
  rewrite decide_False by lia.
  destruct (decide (a = 0)) as [->|Ha].
  { exists (S754_zero (xorb (bool_decide (0 < 0)) (bool_decide (b < 0)))), 0, 45.
    assert (lo = 0) as -> by nia. assert (0 <= hi) by nia.
    split_and!; [done|done| |lia|lia|lia].
    simpl. rewrite Qcmult_0_l. by apply Qc_is_canon. }
  assert (0 < a) as Hpos by nia.
  rewrite !Z.abs_eq by lia.
  rewrite (bool_decide_eq_false_2 (a < 0)) by lia.
  rewrite (bool_decide_eq_false_2 (b < 0)) by lia. cbn [xorb].
  pose proof (binade_small a b Hpos Hb ltac:(nia)) as He.
  set (e := binade a b) in *. unfold scaled. rewrite decide_False by lia.
  set (k := - e) in *. assert (45 <= k) as Hk by lia.
  assert (0 < 2 ^ k) as Hpow by (apply Z.pow_pos_nonneg; lia).
  destruct (round_half_even_spec (a * 2 ^ k) b Hb ltac:(nia))
    as ([Hm1 Hm2] & Herr & Hup).
  set (m := round_half_even (a * 2 ^ k) b) in *.
  pose proof (Z.div_mod (a * 2 ^ k) b ltac:(lia)) as Hdiv.
  pose proof (Z.mod_pos_bound (a * 2 ^ k) b Hb) as Hmod.
  assert (lo * b * 2 ^ k <= a * 2 ^ k <= hi * b * 2 ^ k) as [Hlo' Hhi']
    by (split; apply Z.mul_le_mono_nonneg_r; lia).
  assert (lo * 2 ^ k <= m <= hi * 2 ^ k) as Hbounds.
  { split.
    - assert (lo * 2 ^ k <= (a * 2 ^ k) `div` b); [|lia].
      apply Z.div_le_lower_bound; [done|]. lia.
    - assert ((a * 2 ^ k) `div` b <= hi * 2 ^ k) as Hq.
      { apply Z.div_le_upper_bound; [done|]. lia. }
      destruct (decide (m = (a * 2 ^ k) `div` b + 1)) as [Hm|?]; [|lia].
      specialize (Hup Hm).
      destruct (decide ((a * 2 ^ k) `div` b = hi * 2 ^ k)) as [Heq|?]; [|lia].
      rewrite Heq in Hdiv. nia. }
  exists (if decide (m = 0) then S754_zero false
          else if decide (m = 2 ^ 53)
               then S754_finite false (Z.to_pos (2 ^ 52)) (1 - k)
               else S754_finite false (Z.to_pos m) (0 - k)), m, k.
  split; [|split; [done|split; [|split; [done|exact Herr]]]].
  - repeat case_decide; try lia; try done; do 2 f_equal; lia.
  - destruct (decide (m = 0)) as [Hm0|?].
    { rewrite Hm0. simpl. rewrite Qcmult_0_l. by apply Qc_is_canon. }
    destruct (decide (m = 2 ^ 53)) as [Hm53|?].
    + rewrite float_val_scaled by lia. rewrite Hm53. f_equal.
    + rewrite float_val_scaled by lia. f_equal. lia.
Qed.

Lemma Qc_le_by_scaling (x y : Qc) (X Y d : Z) :
  0 < d → (x * Qc_of_Z d)%Qc = Qc_of_Z X → (y * Qc_of_Z d)%Qc = Qc_of_Z Y →
  X <= Y → (x ≤ y)%Qc.
Proof.
  intros Hd Hx Hy Hle.
  apply (Qcmult_le_mono_pos_r _ _ _ (Qc_of_Z_pos d Hd)).
  rewrite Hx, Hy. by apply (proj1 (Z2Qc_inj_le _ _)).
Qed.

Lemma Qc_eq_by_scaling (x y : Qc) (X d : Z) :
  0 < d → (x * Qc_of_Z d)%Qc = Qc_of_Z X → (y * Qc_of_Z d)%Qc = Qc_of_Z X →
  x = y.
Proof.
  intros Hd Hx Hy.
  apply (anti_symm Qcle); eapply Qc_le_by_scaling; eauto; lia.
Qed.

Lemma py_truediv_rounded (a b lo hi : Z) :
  0 < b → 0 <= lo → hi < 2 ^ 7 → lo * b <= a <= hi * b →
  ∃ f,
    py_truediv a b = Ok f ∧
    (Qc_of_Z lo ≤ float_val f ≤ Qc_of_Z hi)%Qc ∧
    (Qc_of_Z a - Qc_of_Z b * pow2 (-46) ≤ float_val f * Qc_of_Z b
       ≤ Qc_of_Z a + Qc_of_Z b * pow2 (-46))%Qc.
Proof.
  intros Hb Hlo Hhi Hab.
  destruct (py_truediv_spec a b lo hi Hb Hlo Hhi Hab)
    as (f & m & k & Hdiv & Hk & Hval & [Hm1 Hm2] & Herr).
  assert (0 < 2 ^ k) as Hpow by (apply Z.pow_pos_nonneg; lia).
  assert (0 < 2 ^ (k + 1)) as Hpow' by (apply Z.pow_pos_nonneg; lia).
  assert (1 <= 2 ^ (k - 45)) as Hpow''
    by (pose proof (Z.pow_pos_nonneg 2 (k - 45)); lia).
  assert (2 ^ (k + 1) = 2 * 2 ^ k) as Hsucc
    by (rewrite Z.pow_add_r by lia; lia).
  assert ((Qc_of_Z b * pow2 (-46) * Qc_of_Z (2 ^ (k + 1)))%Qc =
          Qc_of_Z (b * 2 ^ (k - 45))) as Htol.
  { replace (-46) with (k - 45 - (k + 1)) by lia.
    by rewrite <- Qcmult_assoc, pow2_scale, <- Z2Qc_inj_mul by lia. }
  assert ((float_val f * Qc_of_Z b * Qc_of_Z (2 ^ (k + 1)))%Qc =
          Qc_of_Z (2 * m * b)) as Hx.
  { rewrite Hsucc, !Z2Qc_inj_mul, <- Hval. ring. }
  exists f. split; [done|]. split; [split|split].
  - eapply (Qc_le_by_scaling _ _ (lo * 2 ^ k) m (2 ^ k)); eauto.
    by rewrite <- Z2Qc_inj_mul.
  - eapply (Qc_le_by_scaling _ _ m (hi * 2 ^ k) (2 ^ k)); eauto.
    by rewrite <- Z2Qc_inj_mul.
  - eapply (Qc_le_by_scaling _ _ (a * 2 ^ (k + 1) - b * 2 ^ (k - 45))
              (2 * m * b) (2 ^ (k + 1))); eauto.
    + unfold Qcminus. rewrite Qcmult_plus_distr_l.
      rewrite Z2Qc_inj_sub, Z2Qc_inj_mul. unfold Qcminus. f_equal.
      rewrite <- Htol. ring.
    + rewrite Hsucc. nia.
  - eapply (Qc_le_by_scaling _ _ (2 * m * b)
              (a * 2 ^ (k + 1) + b * 2 ^ (k - 45)) (2 ^ (k + 1))); eauto.
    + rewrite Qcmult_plus_distr_l, Z2Qc_inj_add, Z2Qc_inj_mul. f_equal.
      exact Htol.
    + rewrite Hsucc. nia.
Qed.


Lemma py_truediv_half (s : Z) :
  0 <= s <= 200 →
  ∃ f, py_truediv s 2 = Ok f ∧
       float_val f = (Qc_of_Z s / Qc_of_Z 2)%Qc.
Proof.
  intros Hs.
  destruct (py_truediv_spec s 2 0 100) as (f & m & k & Hf & Hk & Hval & _ & Herr);
    [lia..|].
  exists f. split; [done|].
  assert (2 ^ k = 2 * 2 ^ (k - 1)) as Hsucc
    by (rewrite <- Z.pow_succ_r by lia; f_equal; lia).
  assert (m = s * 2 ^ (k - 1)) as -> by (rewrite Hsucc in Herr; lia).
  apply (Qc_eq_by_scaling _ _ (s * 2 ^ (k - 1)) (2 ^ k));
    [apply Z.pow_pos_nonneg; lia|done|].
  rewrite Hsucc, !Z2Qc_inj_mul. rewrite Z2Qc_inj_2. field. done.
Qed.

(** ** The average *)

Lemma py_len_nonzero {A} (xs : list A) : xs ≠ [] → py_len xs ≠ 0.
Proof. destruct xs; [done|]. unfold py_len; simpl; lia. Qed.

Lemma foldl_add_bounds (lo hi : Z) (xs : list Z) :
  Forall (λ y, lo <= y <= hi) xs →
  ∀ acc, acc + lo * py_len xs <= foldl Z.add acc xs <= acc + hi * py_len xs.
Proof.
  unfold py_len. induction 1 as [|x xs Hx _ IH]; intros acc; simpl; [lia|].
  specialize (IH (acc + x)). lia.
Qed.

Lemma py_sum_bounds (lo hi : Z) (marks_dict : dict Z) :
  Forall (λ y, lo <= y <= hi) (values marks_dict) →
  lo * py_len marks_dict <= py_sum (values marks_dict)
    <= hi * py_len marks_dict.
Proof.
  intros Hall. pose proof (foldl_add_bounds lo hi _ Hall 0) as Hsum.
  unfold py_sum, values, py_len in *. rewrite length_fmap in Hsum. lia.
Qed.



(** The average of a non-empty roster in range, as [py_truediv] gives it. *)
Lemma calculate_average_rounds (marks_dict : dict Z) (lo hi : Z) :
  marks_dict ≠ [] → 0 <= lo → hi <= 100 →
  Forall (λ y, lo <= y <= hi) (values marks_dict) →
  ∃ average,
    calculate_average marks_dict = Ok average ∧
    (Qc_of_Z lo ≤ float_val average ≤ Qc_of_Z hi)%Qc ∧
    (Qc_of_Z (py_sum (values marks_dict)) -
       Qc_of_Z (py_len marks_dict) * pow2 (-46)
     ≤ float_val average * Qc_of_Z (py_len marks_dict)
     ≤ Qc_of_Z (py_sum (values marks_dict)) +
       Qc_of_Z (py_len marks_dict) * pow2 (-46))%Qc.
Proof.
  intros Hne Hlo Hhi Hall.
  pose proof (py_len_nonzero _ Hne) as Hlen.
  pose proof (py_sum_bounds _ _ _ Hall) as Hsum.
  destruct (py_truediv_rounded (py_sum (values marks_dict))
              (py_len marks_dict) lo hi) as (average & Hdiv & Hbounds);
    [unfold py_len in *; lia|done|lia|done|].
  exists average. split; [|done].
  unfold calculate_average. by destruct marks_dict.
Qed.

(** Checks the score range of a roster that is written out. *)
Ltac in_range :=
  unfold score_range; simpl;
  repeat (apply List.Forall_cons; [lia|]); apply List.Forall_nil.




(** ** The extrema *)

Section Extremum.
(** A scan that keeps the better of the running item and the next one,
    for a preorder [R] in which the kept item is above both. *)
Variable R : relation Z.
Variable pick : Z → Z → Z.
Hypothesis R_refl : ∀ x, R x x.
Hypothesis R_trans : ∀ x y z, R x y → R y z → R x z.
Hypothesis pick_choice : ∀ m y, pick m y = m ∨ pick m y = y.
Hypothesis pick_bound : ∀ m y, R m (pick m y) ∧ R y (pick m y).

Lemma scan_bound (xs : list Z) (x : Z) :
  Forall (λ y, R y (foldl pick x xs)) (x :: xs).
Proof.
  revert x. induction xs as [|y xs IH]; intros x; simpl.
  - by repeat constructor.
  - specialize (IH (pick x y)). inversion IH as [|? ? Hhd Htl]; subst.
    destruct (pick_bound x y) as [Hx Hy].
    repeat constructor; eauto.
Qed.

Lemma scan_attained (xs : list Z) (x : Z) : foldl pick x xs ∈ x :: xs.
Proof.
  revert x. induction xs as [|y xs IH]; intros x; simpl.
  - by left.
  - specialize (IH (pick x y)). apply elem_of_cons in IH as [Heq|Hin].
    + rewrite Heq. destruct (pick_choice x y) as [->| ->].
      * by left.
      * right; by left.
    + by do 2 right.
Qed.
End Extremum.

Lemma py_max_spec (xs : list Z) :
  xs ≠ [] → ∃ m, py_max xs = Ok m ∧ m ∈ xs ∧ Forall (λ y, y <= m) xs.
Proof.
  destruct xs as [|x xs]; [done|intros _]. eexists; split; [reflexivity|].
  split.
  - apply scan_attained. intros; case_decide; auto.
  - apply (scan_bound Z.le); intros; try case_decide; lia.
Qed.

Lemma py_min_spec (xs : list Z) :
  xs ≠ [] → ∃ m, py_min xs = Ok m ∧ m ∈ xs ∧ Forall (λ y, m <= y) xs.
Proof.
  destruct xs as [|x xs]; [done|intros _]. eexists; split; [reflexivity|].
  split.
  - apply scan_attained. intros; case_decide; auto.
  - apply (scan_bound (flip Z.le)); unfold flip; intros; try case_decide; lia.
Qed.

(** The generator expression [name for name, mark in items if mark == m]
    yields first the name of the first item whose mark is [m]. *)
Lemma next_first_match (l : list (string * Z)) (m : Z) :
  m ∈ l.*2 →
  ∃ pre name post,
    l = pre ++ (name, m) :: post ∧
    Forall (λ item, item.2 ≠ m) pre ∧
    py_next (filter (λ item, item.2 = m) l).*1 = Ok name.
Proof.
  induction l as [|[name mark] l IH]; simpl; intros Hin.
  - by apply elem_of_nil in Hin.
  - destruct (decide (mark = m)) as [->|Hne].
    + exists [], name, l. split_and!; [done|constructor|].
      by rewrite filter_cons_True.
    + apply elem_of_cons in Hin as [?|Hin]; [done|].
      destruct (IH Hin) as (pre & name' & post & -> & Hpre & Hnext).
      exists ((name, mark) :: pre), name', post. split_and!; [done| |].
      * by constructor.
      * by rewrite filter_cons_False.
Qed.

(** C2: on a non-empty roster [find_max_score] returns the largest score
    with the first identifier, in insertion order, that has it: every entry
    before it has a smaller score and none after it a larger one;
    [find_min_score] is the same for the smallest score; on A:90, B:90, C:40
    the result is ("A", 90). *)
Theorem find_extrema_first (marks_dict : dict Z) :
  marks_dict ≠ [] →
  (∃ name m pre post,
     find_max_score marks_dict = Ok (name, m) ∧
     items marks_dict = pre ++ (name, m) :: post ∧
     Forall (λ item, item.2 < m) pre ∧ Forall (λ item, item.2 <= m) post) ∧
  (∃ name m pre post,
     find_min_score marks_dict = Ok (name, m) ∧
     items marks_dict = pre ++ (name, m) :: post ∧
     Forall (λ item, m < item.2) pre ∧ Forall (λ item, m <= item.2) post) ∧
  find_max_score tie_roster = Ok ("A", 90).
Proof.
  intros Hne.
  assert (values marks_dict ≠ []) as Hvalues by by destruct marks_dict.
  assert (is_empty marks_dict = false) as Hempty by by destruct marks_dict.
  split_and!; [| |done].
  - destruct (py_max_spec _ Hvalues) as (m & Hmax & Hin & Hbound).
    destruct (next_first_match marks_dict m Hin)
      as (pre & name & post & Hsplit & Hpre & Hnext).
    exists name, m, pre, post. unfold find_max_score, items, values in *.
    rewrite Hempty, Hmax; simpl. rewrite Hnext; simpl.
    split_and!; [done..| |].
    + rewrite Hsplit, fmap_app, Forall_app, Forall_fmap in Hbound.
      destruct Hbound as [Hle _].
      eapply Forall_impl; [apply Forall_and; split; [exact Hle|exact Hpre]|].
      simpl. intros item [? ?]. lia.
    + rewrite Hsplit, fmap_app, Forall_app, fmap_cons, Forall_cons,
        Forall_fmap in Hbound.
      destruct Hbound as (_ & _ & Hpost).
      rewrite Forall_fmap in Hpost. exact Hpost.
  - destruct (py_min_spec _ Hvalues) as (m & Hmin & Hin & Hbound).
    destruct (next_first_match marks_dict m Hin)
      as (pre & name & post & Hsplit & Hpre & Hnext).
    exists name, m, pre, post. unfold find_min_score, items, values in *.
    rewrite Hempty, Hmin; simpl. rewrite Hnext; simpl.
    split_and!; [done..| |].
    + rewrite Hsplit, fmap_app, Forall_app, Forall_fmap in Hbound.
      destruct Hbound as [Hle _].
      eapply Forall_impl; [apply Forall_and; split; [exact Hle|exact Hpre]|].
      simpl. intros item [? ?]. lia.
    + rewrite Hsplit, fmap_app, Forall_app, fmap_cons, Forall_cons,
        Forall_fmap in Hbound.
      destruct Hbound as (_ & _ & Hpost).
      rewrite Forall_fmap in Hpost. exact Hpost.
Qed.

Lemma find_extrema_first_witness :
  tie_roster ≠ [] ∧
  ∃ name m pre post,
    find_min_score tie_roster = Ok (name, m) ∧
    items tie_roster = pre ++ (name, m) :: post ∧
    Forall (λ item, m < item.2) pre ∧ Forall (λ item, m <= item.2) post.
Proof.
  split; [discriminate|].
  refine (proj1 (proj2 (find_extrema_first tie_roster _))). discriminate.
Defined.

(** ** The pass/fail partition *)

Lemma elem_of_filter_names (P : string * Z → Prop) `{∀ x, Decision (P x)}
    (d : dict Z) (name : string) :
  name ∈ (filter P d).*1 ↔ ∃ score, (name, score) ∈ d ∧ P (name, score).
Proof.
  rewrite list_elem_of_fmap. split.
  - intros ([name' score] & -> & [? ?]%list_elem_of_filter). eauto.
  - intros (score & ? & ?). exists (name, score).
    split; [done|]. by apply list_elem_of_filter.
Qed.

(** In a dict a key has one value. *)
Lemma dict_wf_functional {V} (d : dict V) (k : string) (v1 v2 : V) :
  dict_wf d → (k, v1) ∈ d → (k, v2) ∈ d → v1 = v2.
Proof.
  unfold dict_wf, keys. induction d as [|[k' v'] d IH]; simpl.
  - by intros _ ?%elem_of_nil.
  - intros [Hnotin Hnodup]%NoDup_cons [Heq1|Hin1]%elem_of_cons
      [Heq2|Hin2]%elem_of_cons; simplify_eq; auto.
    + destruct Hnotin. apply list_elem_of_fmap. by exists (k', v2).
    + destruct Hnotin. apply list_elem_of_fmap. by exists (k', v1).
Qed.

Lemma filter_names_sublist (P : string * Z → Prop) `{∀ x, Decision (P x)}
    (d : dict Z) :
  (filter P d).*1 `sublist_of` keys d.
Proof. unfold keys. apply fmap_sublist, sublist_filter. Qed.

Lemma filter_split_length (d : dict Z) (t : Z) :
  (length (filter (λ item : string * Z, (item.2 >= t)%Z) d) +
   length (filter (λ item : string * Z, (item.2 < t)%Z) d))%nat = length d.
Proof.
  induction d as [|item d IH]; [done|].
  rewrite !filter_cons. repeat case_decide; simpl; lia.
Qed.

(** C4: [filter_pass_fail] splits the identifiers of a roster in two: an
    identifier is in the first list when its score is at least the threshold
    40 and in the second list otherwise; the two lengths add up to the size
    of the roster; no identifier is in both lists; each list keeps the
    insertion order of the roster. *)
Theorem filter_pass_fail_partition (marks_dict : dict Z) :
  dict_wf marks_dict →
  PASS_THRESHOLD = 40 ∧
  ∃ passed failed,
    filter_pass_fail marks_dict = (passed, failed) ∧
    (∀ name score, (name, score) ∈ items marks_dict →
       (name ∈ passed ↔ score >= PASS_THRESHOLD) ∧
       (name ∈ failed ↔ score < PASS_THRESHOLD)) ∧
    (length passed + length failed)%nat = length marks_dict ∧
    (∀ name, name ∈ passed → name ∉ failed) ∧
    passed `sublist_of` keys marks_dict ∧
    failed `sublist_of` keys marks_dict.
Proof.
  intros Hwf. split; [done|]. unfold filter_pass_fail, items.
  eexists _, _. split; [reflexivity|]. split_and!.
  - intros name score Hin. rewrite !elem_of_filter_names; simpl.
    split; (split; [intros (score' & Hin' & ?)|by eauto]);
      by rewrite (dict_wf_functional _ _ _ _ Hwf Hin Hin').
  - rewrite !length_fmap. apply filter_split_length.
  - intros name. rewrite !elem_of_filter_names; simpl.
    intros (score & Hin & ?) (score' & Hin' & ?).
    pose proof (dict_wf_functional _ _ _ _ Hwf Hin Hin'). lia.
  - apply filter_names_sublist.
  - apply filter_names_sublist.
Qed.

Lemma filter_pass_fail_partition_witness :
  dict_wf class_roster ∧
  ∃ passed failed,
    filter_pass_fail class_roster = (passed, failed) ∧
    (length passed + length failed)%nat = 8%nat.
Proof.
  assert (dict_wf class_roster) as Hwf.
  { unfold dict_wf. apply (bool_decide_unpack _). vm_compute. exact I. }
  split; [exact Hwf|].
  destruct (filter_pass_fail_partition class_roster Hwf)
    as (_ & passed & failed & Hf & _ & Hlen & _).
  exists passed, failed. split; [exact Hf | exact Hlen].
Defined.

(** ** Grades and their distribution *)

Lemma grade_item_step (grades_dict : dict string) (a b c d f : Z)
    (name : string) (mark : Z) :
  ∃ a' b' c' d' f',
    grade_item (grades_dict, distribution_of a b c d f) (name, mark) =
      Ok (dict_setitem grades_dict name (assign_grade mark),
          distribution_of a' b' c' d' f') ∧
    a <= a' ∧ b <= b' ∧ c <= c' ∧ d <= d' ∧ f <= f' ∧
    a' + b' + c' + d' + f' = a + b + c + d + f + 1.
Proof.
  unfold grade_item, assign_grade.
  repeat case_decide; cbn; eexists _, _, _, _, _;
    (split; [reflexivity|lia]).
Qed.

Lemma for_each_cons {A S} (body : S → A → result S) (x : A) (xs : list A)
    (st st' : S) :
  body st x = Ok st' → for_each body (x :: xs) st = for_each body xs st'.
Proof. intros Hbody. simpl. by rewrite Hbody. Qed.

Lemma for_each_grade_item (l : list (string * Z)) :
  ∀ (grades_dict : dict string) (a b c d f : Z),
  ∃ a' b' c' d' f',
    for_each grade_item l (grades_dict, distribution_of a b c d f) =
      Ok (graded grades_dict l, distribution_of a' b' c' d' f') ∧
    a <= a' ∧ b <= b' ∧ c <= c' ∧ d <= d' ∧ f <= f' ∧
    a' + b' + c' + d' + f' = a + b + c + d + f + py_len l.
Proof.
  induction l as [|[name mark] l IH]; intros grades_dict a b c d f.
  - exists a, b, c, d, f. unfold py_len; simpl. split; [done|lia].
  - destruct (grade_item_step grades_dict a b c d f name mark)
      as (a1 & b1 & c1 & d1 & f1 & Hstep & ? & ? & ? & ? & ? & ?).
    destruct (IH (dict_setitem grades_dict name (assign_grade mark))
                a1 b1 c1 d1 f1)
      as (a2 & b2 & c2 & d2 & f2 & Hloop & ? & ? & ? & ? & ? & ?).
    exists a2, b2, c2, d2, f2. split.
    + rewrite (for_each_cons _ _ _ _ _ Hstep). exact Hloop.
    + unfold py_len in *. rewrite length_cons. lia.
Qed.

Lemma dict_setitem_fresh {V} (d : dict V) (k : string) (v : V) :
  k ∉ keys d → dict_setitem d k v = d ++ [(k, v)].
Proof.
  unfold keys. induction d as [|[k' v'] d IH]; simpl; [done|].
  intros [? ?]%not_elem_of_cons. rewrite decide_False by done.
  by rewrite IH.
Qed.

Lemma graded_fresh (l : list (string * Z)) :
  ∀ grades_dict : dict string,
  NoDup (keys grades_dict ++ keys l) →
  graded grades_dict l =
    grades_dict ++ ((λ item, (item.1, assign_grade item.2)) <$> l).
Proof.
  unfold keys.
  induction l as [|[name mark] l IH]; intros grades_dict Hnodup; simpl.
  - by rewrite app_nil_r.
  - unfold graded in *. simpl. rewrite dict_setitem_fresh.
    + rewrite IH; [by rewrite <- app_assoc|].
      by rewrite fmap_app, <- app_assoc.
    + apply NoDup_app in Hnodup as (_ & Hdisj & _).
      intros Hin. apply (Hdisj _ Hin). by left.
Qed.

(** C3: on every roster [generate_grades_and_distribution] returns, without
    raising, a distribution whose keys are exactly A, B, C, D, F, whose
    counts are not negative and add up to the number of entries, and a grade
    assignment with one entry per roster entry: the same identifiers in the
    same order, each with the grade of its score. *)
Theorem grades_distribution_invariant (marks_dict : dict Z) :
  dict_wf marks_dict →
  ∃ grades distribution,
    generate_grades_and_distribution marks_dict = Ok (grades, distribution) ∧
    keys distribution = ["A"; "B"; "C"; "D"; "F"] ∧
    Forall (λ count, 0 <= count) (values distribution) ∧
    py_sum (values distribution) = py_len marks_dict ∧
    length grades = length marks_dict ∧
    keys grades = keys marks_dict ∧
    grades = (λ item, (item.1, assign_grade item.2)) <$> items marks_dict.
Proof.
  intros Hwf. unfold generate_grades_and_distribution, items.
  destruct (for_each_grade_item marks_dict [] 0 0 0 0 0)
    as (a & b & c & d & f & Hloop & ? & ? & ? & ? & ? & ?).
  assert (graded [] marks_dict =
          (λ item, (item.1, assign_grade item.2)) <$> marks_dict) as Hgraded.
  { by rewrite graded_fresh. }
  exists (graded [] marks_dict), (distribution_of a b c d f).
  split_and!.
  - exact Hloop.
  - done.
  - simpl. repeat constructor; done.
  - unfold py_sum; simpl. lia.
  - by rewrite Hgraded, length_fmap.
  - unfold keys. rewrite Hgraded, <- list_fmap_compose. done.
  - exact Hgraded.
Qed.

Lemma grades_distribution_invariant_witness :
  dict_wf class_roster ∧
  ∃ grades distribution,
    generate_grades_and_distribution class_roster = Ok (grades, distribution) ∧
    keys distribution = ["A"; "B"; "C"; "D"; "F"] ∧
    py_sum (values distribution) = 8.
Proof.
  assert (dict_wf class_roster) as Hwf.
  { unfold dict_wf. apply (bool_decide_unpack _). vm_compute. exact I. }
  split; [exact Hwf|].
  destruct (grades_distribution_invariant class_roster Hwf)
    as (grades & distribution & Hg & Hkeys & _ & Hsum & _).
  exists grades, distribution. split; [exact Hg|]. split; [exact Hkeys|].
  exact Hsum.
Defined.

(** ** The median *)

Lemma list_getitem_lookup {A} (xs : list A) (i : nat) (x : A) :
  xs !! i = Some x → list_getitem xs (Z.of_nat i) = Ok x.
Proof.
  intros Hx. unfold list_getitem.
  destruct (decide (Z.of_nat i < 0)) as [?|_]; [lia|]. simpl.
  rewrite decide_False by lia. by rewrite Nat2Z.id, Hx.
Qed.

(** The sorted arrangement of a list is unique, so [sorted] returns it. *)
Lemma sorted_unique (xs s : list Z) :
  Sorted Z.le s → s ≡ₚ xs → sorted xs = s.
Proof.
  intros Hsorted Hperm. unfold sorted.
  apply (Sorted_unique Z.le).
  - apply (Sorted_merge_sort Z.le).
  - exact Hsorted.
  - by rewrite merge_sort_Permutation.
Qed.

(** Parity and halving of a length given as [2 * k] or [2 * k + 1]. *)
Ltac halves Hk := rewrite Hk; Z.div_mod_to_equations; lia.

Lemma median_sorted_perm (xs s : list Z) :
  xs ≠ [] → Forall (λ score, 0 <= score <= 100) xs →
  Sorted Z.le s → s ≡ₚ xs →
  (Nat.odd (length xs) →
   ∃ x, s !! (length xs / 2)%nat = Some x ∧ median xs = Ok (PyInt x)) ∧
  (Nat.even (length xs) →
   ∃ x y f, s !! (length xs / 2 - 1)%nat = Some x ∧
            s !! (length xs / 2)%nat = Some y ∧
            median xs = Ok (PyFloat f) ∧
            float_val f = (Qc_of_Z (x + y) / Qc_of_Z 2)%Qc).
Proof.
  intros Hne Hrange Hsorted Hperm.
  assert (length s = length xs) as Hlen by by rewrite Hperm.
  assert (0 < length xs)%nat as Hpos by (destruct xs; [done|simpl; lia]).
  rewrite <- Hperm, Forall_forall in Hrange.
  unfold median. rewrite (sorted_unique xs s Hsorted Hperm).
  unfold py_len. rewrite Hlen. rewrite decide_False by lia.
  split.
  - intros [k Hk]%Is_true_eq_true%Nat.odd_spec.
    assert (length xs / 2 = k)%nat as Hhalf.
    { rewrite Hk. symmetry. apply (Nat.div_unique _ 2 k 1); lia. }
    destruct (lookup_lt_is_Some_2 s k) as [x Hx]; [lia|].
    exists x. rewrite Hhalf. split; [done|].
    rewrite decide_True by halves Hk.
    replace (Z.of_nat (length xs) `div` 2) with (Z.of_nat k) by halves Hk.
    by rewrite (list_getitem_lookup _ _ _ Hx).
  - intros [k Hk]%Is_true_eq_true%Nat.even_spec.
    assert (length xs / 2 = k)%nat as Hhalf.
    { rewrite Hk. symmetry. apply (Nat.div_unique _ 2 k 0); lia. }
    destruct (lookup_lt_is_Some_2 s (k - 1)) as [x Hx]; [lia|].
    destruct (lookup_lt_is_Some_2 s k) as [y Hy]; [lia|].
    pose proof (Hrange _ (list_elem_of_lookup_2 _ _ _ Hx)) as Hxr.
    pose proof (Hrange _ (list_elem_of_lookup_2 _ _ _ Hy)) as Hyr.
    destruct (py_truediv_half (x + y)) as (f & Hf & Hval); [lia|].
    exists x, y, f. rewrite Hhalf. split_and!; [done..| |done].
    rewrite decide_False by halves Hk.
    replace (Z.of_nat (length xs) `div` 2 - 1) with (Z.of_nat (k - 1))
      by halves Hk.
    replace (Z.of_nat (length xs) `div` 2) with (Z.of_nat k) by halves Hk.
    rewrite (list_getitem_lookup _ _ _ Hx). cbn [mbind result_bind].
    rewrite (list_getitem_lookup _ _ _ Hy). cbn [mbind result_bind].
    by rewrite Hf.
Qed.

Lemma calculate_median_nonempty (marks_dict : dict Z) :
  marks_dict ≠ [] → calculate_median marks_dict = median (values marks_dict).
Proof. by destruct marks_dict. Qed.




(** ** The CSV import *)

Section ImportFacts.
Variable strip : string → string.
Variable int : string → option Z.

(** After the header, a row changes [marks] when it is a valid record. *)
Lemma import_row_marks (st : import_state) (row : list string) :
  header_skipped st = true →
  header_skipped (import_row strip int st row) = true ∧
  marks (import_row strip int st row) =
    match valid_record strip int row with
    | Some r => dict_setitem (marks st) r.1 r.2
    | None => marks st
    end.
Proof.
  intros Hskipped. unfold import_row, valid_record. rewrite Hskipped; simpl.
  destruct row as [|field0 [|field1 row]]; simpl; [done..|].
  destruct (int (strip field1)) as [mark|]; simpl; [|done].
  by case_decide.
Qed.

Lemma import_loop_marks (rows : list (list string)) :
  ∀ st, header_skipped st = true →
  marks (foldl (import_row strip int) st rows) =
    record_all (marks st) (omap (valid_record strip int) rows).
Proof.
  induction rows as [|row rows IH]; intros st Hskipped; simpl; [done|].
  destruct (import_row_marks st row Hskipped) as [Hskipped' Hmarks].
  rewrite (IH _ Hskipped'), Hmarks.
  by destruct (valid_record strip int row).
Qed.

Lemma import_rows_marks (rows : list (list string)) :
  marks (import_rows strip int rows) =
    record_all [] (valid_records strip int rows).
Proof.
  unfold import_rows, valid_records. destruct rows as [|header rows]; [done|].
  simpl. by rewrite import_loop_marks.
Qed.
End ImportFacts.

Lemma keys_dict_setitem {V} (d : dict V) (k : string) (v : V) :
  keys (dict_setitem d k v) =
    if decide (k ∈ keys d) then keys d else keys d ++ [k].
Proof.
  unfold keys. induction d as [|[k' v'] d IH]; [done|].
  cbn [dict_setitem].
  destruct (decide (k' = k)) as [->|Hne]; rewrite !fmap_cons; cbn [fst].
  - rewrite decide_True; [done|by left].
  - rewrite IH. destruct (decide (k ∈ d.*1)) as [Hin|Hnotin].
    + rewrite decide_True; [done|by right].
    + rewrite decide_False; [done|].
      intros [?|?]%elem_of_cons; congruence.
Qed.

Lemma dict_get_setitem {V} (d : dict V) (k name : string) (v : V) :
  dict_get (dict_setitem d k v) name =
    if decide (k = name) then Some v else dict_get d name.
Proof.
  induction d as [|[k' v'] d IH]; simpl.
  - by destruct (decide (k = name)).
  - destruct (decide (k' = k)) as [->|Hne]; simpl.
    + by destruct (decide (k = name)).
    + rewrite IH. destruct (decide (k' = name)) as [->|?]; [|done].
      by rewrite decide_False by congruence.
Qed.

Lemma dict_wf_setitem {V} (d : dict V) (k : string) (v : V) :
  dict_wf d → dict_wf (dict_setitem d k v).
Proof.
  unfold dict_wf. rewrite keys_dict_setitem. case_decide; [done|].
  intros Hnodup. apply NoDup_app. split_and!; [done| |apply NoDup_singleton].
  intros x Hx ->%list_elem_of_singleton. done.
Qed.

Lemma record_all_wf (recs : list (string * Z)) :
  ∀ d : dict Z, dict_wf d → dict_wf (record_all d recs).
Proof.
  induction recs as [|r recs IH]; intros d Hwf; simpl; [done|].
  by apply IH, dict_wf_setitem.
Qed.

(** The keys stay where they are and the new ones come behind them, each
    where its first record puts it. *)
Lemma record_all_keys (recs : list (string * Z)) :
  ∀ d : dict Z,
  keys (record_all d recs) =
    keys d ++ filter (λ k, k ∉ keys d) (first_occurrences recs.*1).
Proof.
  induction recs as [|[k v] recs IH]; intros d.
  - simpl. by rewrite app_nil_r.
  - unfold record_all in *; cbn [foldl fst snd]. rewrite IH, keys_dict_setitem.
    rewrite fmap_cons. cbn [first_occurrences fst].
    destruct (decide (k ∈ keys d)) as [Hin|Hnotin].
    + rewrite filter_cons_False by tauto. rewrite list_filter_filter.
      f_equal. apply list_filter_iff. intros x. split; [|tauto].
      intros Hx. split; [done|]. by intros ->.
    + rewrite filter_cons_True by done. rewrite list_filter_filter.
      rewrite <- app_assoc. simpl.
      do 2 f_equal. apply list_filter_iff. intros x.
      rewrite not_elem_of_app, list_elem_of_singleton. tauto.
Qed.

Lemma last_score_cons (k name : string) (v : Z) (recs : list (string * Z)) :
  last_score ((k, v) :: recs) name =
    match last_score recs name with
    | Some v' => Some v'
    | None => if decide (k = name) then Some v else None
    end.
Proof.
  unfold last_score. rewrite filter_cons; simpl.
  destruct (decide (k = name)) as [->|Hne]; [rewrite last_cons|];
    by destruct (last _).
Qed.

Lemma record_all_get (recs : list (string * Z)) (name : string) :
  ∀ d : dict Z,
  dict_get (record_all d recs) name =
    match last_score recs name with
    | Some v => Some v
    | None => dict_get d name
    end.
Proof.
  induction recs as [|[k v] recs IH]; intros d; [done|].
  rewrite last_score_cons. unfold record_all in *; simpl.
  rewrite IH, dict_get_setitem.
  destruct (last_score recs name); [done|]. by case_decide.
Qed.

Lemma filter_no_keys (l : list string) : filter (λ k, k ∉ keys (@nil (string * Z))) l = l.
Proof.
  induction l as [|x l IH]; [done|].
  rewrite filter_cons_True; [by rewrite IH|]. apply not_elem_of_nil.
Qed.

(** C9, as the specification states it, fails: in the roster imported from a
    file where A comes before and after B, A is not at the position of its
    last record. *)
Lemma import_later_position_fails :
  keys (marks (import_rows strip_ascii int_ascii duplicate_rows)) ≠
    last_occurrences (valid_records strip_ascii int_ascii duplicate_rows).*1 ∧
  marks (import_rows strip_ascii int_ascii duplicate_rows) ≠
    [("B", 2); ("A", 3)].
Proof. split; vm_compute; discriminate. Qed.

(** C9, amended: when an identifier comes in several valid records of the
    file, the imported roster has it once, with the score of its last valid
    record, at the position of its first valid record. *)
Theorem import_duplicates_overwrite (strip : string → string)
    (int : string → option Z) (rows : list (list string)) :
  dict_wf (marks (import_rows strip int rows)) ∧
  keys (marks (import_rows strip int rows)) =
    first_occurrences (valid_records strip int rows).*1 ∧
  (∀ name, dict_get (marks (import_rows strip int rows)) name =
             last_score (valid_records strip int rows) name) ∧
  marks (import_rows strip_ascii int_ascii duplicate_rows) =
    [("A", 3); ("B", 2)].
Proof.
  rewrite import_rows_marks. split_and!.
  - apply record_all_wf, NoDup_nil_2.
  - rewrite record_all_keys. simpl. apply filter_no_keys.
  - intros name. rewrite record_all_get.
    by destruct (last_score _ name).
  - reflexivity.
Qed.

(** * Further properties *)

(** ** Grades *)

(** X1: the letter tells the band of the score, on all integers: A exactly
    from 90 up, B exactly from 80 to 89, C from 70 to 79, D from 60 to 69
    and F exactly below 60. *)
Theorem assign_grade_bands (score : Z) :
  (assign_grade score = "A" ↔ 90 <= score) ∧
  (assign_grade score = "B" ↔ 80 <= score < 90) ∧
  (assign_grade score = "C" ↔ 70 <= score < 80) ∧
  (assign_grade score = "D" ↔ 60 <= score < 70) ∧
  (assign_grade score = "F" ↔ score < 60).
Proof.
  unfold assign_grade.
  repeat case_decide; split_and!; split; (discriminate || lia || done).
Qed.

(** X2: a higher score never gets a lower letter. *)
Theorem assign_grade_monotone (score1 score2 : Z) :
  score1 <= score2 →
  grade_rank (assign_grade score1) <= grade_rank (assign_grade score2).
Proof.
  intros Hle. unfold assign_grade.
  repeat case_decide; try lia; by vm_compute.
Qed.

Lemma assign_grade_monotone_witness :
  59 <= 60 ∧ grade_rank (assign_grade 59) <= grade_rank (assign_grade 60).
Proof. split; [lia|]. apply assign_grade_monotone. lia. Defined.

Lemma grade_count_one (grade name : string) (mark : Z) :
  grade_count grade [(name, mark)] =
    if decide (assign_grade mark = grade) then 1 else 0.
Proof.
  unfold grade_count, py_len. rewrite filter_cons, filter_nil. simpl.
  by case_decide.
Qed.

Lemma assign_grade_letter (score : Z) :
  assign_grade score = "A" ∨ assign_grade score = "B" ∨
  assign_grade score = "C" ∨ assign_grade score = "D" ∨
  assign_grade score = "F".
Proof. unfold assign_grade. repeat case_decide; auto. Qed.

(** One pass of the loop adds one to the count of the grade of the item. *)
Lemma grade_item_counts (grades_dict : dict string) (a b c d f : Z)
    (name : string) (mark : Z) :
  grade_item (grades_dict, distribution_of a b c d f) (name, mark) =
    Ok (dict_setitem grades_dict name (assign_grade mark),
        distribution_of (a + grade_count "A" [(name, mark)])
                        (b + grade_count "B" [(name, mark)])
                        (c + grade_count "C" [(name, mark)])
                        (d + grade_count "D" [(name, mark)])
                        (f + grade_count "F" [(name, mark)])).
Proof.
  rewrite !grade_count_one. unfold grade_item.
  destruct (assign_grade_letter mark) as [Hg|[Hg|[Hg|[Hg|Hg]]]];
    rewrite Hg; cbn; by rewrite !Z.add_0_r.
Qed.

Lemma grade_count_cons (grade : string) (item : string * Z)
    (l : list (string * Z)) :
  grade_count grade (item :: l) = grade_count grade [item] + grade_count grade l.
Proof.
  unfold grade_count, py_len. rewrite !filter_cons, filter_nil.
  case_decide; simpl; lia.
Qed.

Lemma for_each_grade_counts (l : list (string * Z)) :
  ∀ (grades_dict : dict string) (a b c d f : Z),
  for_each grade_item l (grades_dict, distribution_of a b c d f) =
    Ok (graded grades_dict l,
        distribution_of (a + grade_count "A" l) (b + grade_count "B" l)
                        (c + grade_count "C" l) (d + grade_count "D" l)
                        (f + grade_count "F" l)).
Proof.
  induction l as [|[name mark] l IH]; intros grades_dict a b c d f.
  - unfold grade_count, py_len; simpl. by rewrite !Z.add_0_r.
  - rewrite (for_each_cons _ _ _ _ _ (grade_item_counts _ _ _ _ _ _ _ _)).
    rewrite IH. unfold graded; simpl.
    rewrite !(grade_count_cons _ (name, mark) l), !Z.add_assoc. done.
Qed.

(** X3: each count of the distribution is the number of entries of the
    roster whose score has that letter, and the distribution has no key
    other than the five letters. *)
Theorem distribution_counts (marks_dict : dict Z) :
  ∃ grades distribution,
    generate_grades_and_distribution marks_dict = Ok (grades, distribution) ∧
    (∀ grade, grade ∈ ["A"; "B"; "C"; "D"; "F"] →
       dict_get distribution grade = Some (grade_count grade marks_dict)) ∧
    (∀ grade, grade ∉ ["A"; "B"; "C"; "D"; "F"] →
       dict_get distribution grade = None).
Proof.
  unfold generate_grades_and_distribution, items.
  pose proof (for_each_grade_counts marks_dict [] 0 0 0 0 0) as Hloop.
  rewrite !Z.add_0_l in Hloop.
  eexists _, _. split; [exact Hloop|]. split.
  - intros grade Hin. rewrite !elem_of_cons, elem_of_nil in Hin.
    destruct Hin as [->|[->|[->|[->|[->|[]]]]]]; reflexivity.
  - intros grade Hnotin. rewrite !not_elem_of_cons in Hnotin.
    destruct Hnotin as (? & ? & ? & ? & ? & _).
    unfold distribution_of; simpl.
    by rewrite !decide_False by done.
Qed.

(** ** Lookups in a dict *)

Lemma dict_get_Some_elem {V} (d : dict V) (k : string) (v : V) :
  dict_get d k = Some v → (k, v) ∈ d.
Proof.
  induction d as [|[k' v'] d IH]; simpl; [done|].
  case_decide; [intros [= ->]; subst; by left|]. intros; right; auto.
Qed.

Lemma elem_dict_get {V} (d : dict V) (k : string) (v : V) :
  dict_wf d → (k, v) ∈ d → dict_get d k = Some v.
Proof.
  intros Hwf Hin. destruct (dict_get d k) as [v'|] eqn:Hget.
  - f_equal. eapply dict_wf_functional; eauto using dict_get_Some_elem.
  - exfalso. clear Hwf. induction d as [|[k' v''] d IH]; simpl in *.
    + by apply elem_of_nil in Hin.
    + case_decide; [done|].
      apply elem_of_cons in Hin as [[= -> ->]|Hin]; [done|auto].
Qed.

(** ** Pass/fail against the grades *)

Lemma assign_grade_F_iff (score : Z) : assign_grade score = "F" ↔ score < 60.
Proof.
  unfold assign_grade. repeat case_decide; split; (discriminate || lia || done).
Qed.

(** X4: in one run of the analyses the two classifications agree as far as
    they can: whoever is in the failed list has grade F, and whoever has a
    grade other than F is in the passed list (a score from 40 to 59 passes
    with grade F). *)
Theorem failed_have_grade_F (marks_dict : dict Z) :
  dict_wf marks_dict →
  ∃ grades distribution passed failed,
    generate_grades_and_distribution marks_dict = Ok (grades, distribution) ∧
    filter_pass_fail marks_dict = (passed, failed) ∧
    (∀ name, name ∈ failed → dict_get grades name = Some "F") ∧
    (∀ name grade, dict_get grades name = Some grade → grade ≠ "F" →
       name ∈ passed) ∧
    assign_grade PASS_THRESHOLD = "F".
Proof.
  intros Hwf. unfold generate_grades_and_distribution, filter_pass_fail, items.
  pose proof (for_each_grade_counts marks_dict [] 0 0 0 0 0) as Hloop.
  assert (graded [] marks_dict =
          (λ item, (item.1, assign_grade item.2)) <$> marks_dict) as Hgraded.
  { by rewrite graded_fresh. }
  rewrite Hgraded in Hloop. clear Hgraded.
  set (grades := (λ item : string * Z, (item.1, assign_grade item.2))
                   <$> marks_dict) in *.
  assert (dict_wf grades) as Hwf'.
  { unfold dict_wf, keys, grades. by rewrite <- list_fmap_compose. }
  eexists grades, _, _, _. split; [exact Hloop|]. split; [reflexivity|].
  split_and!; [| |done].
  - intros name (score & Hin & Hlow)%elem_of_filter_names. simpl in Hlow.
    apply (elem_dict_get _ _ _ Hwf').
    replace "F" with (assign_grade score)
      by (apply assign_grade_F_iff; unfold PASS_THRESHOLD in Hlow; lia).
    apply list_elem_of_fmap. by exists (name, score).
  - intros name grade Hget Hgrade.
    apply dict_get_Some_elem, list_elem_of_fmap in Hget
      as ([name' mark] & [= -> ->] & Hin).
    apply elem_of_filter_names. exists mark. split; [done|]. simpl in *.
    destruct (decide (mark < 60)) as [Hlow|?];
      [|unfold PASS_THRESHOLD; lia].
    by apply assign_grade_F_iff in Hlow.
Qed.

Lemma failed_have_grade_F_witness :
  dict_wf class_roster ∧
  ∃ grades distribution,
    generate_grades_and_distribution class_roster = Ok (grades, distribution) ∧
    dict_get grades "George" = Some "F".
Proof.
  assert (dict_wf class_roster) as Hwf.
  { unfold dict_wf. apply (bool_decide_unpack _). vm_compute. exact I. }
  split; [exact Hwf|].
  destruct (failed_have_grade_F class_roster Hwf)
    as (grades & distribution & passed & failed & Hg & Hf & Hfailed & _).
  exists grades, distribution. split; [exact Hg|].
  apply Hfailed. injection Hf as _ <-.
  apply (bool_decide_unpack _). vm_compute. exact I.
Defined.

(** ** Statistics: order and bounds *)

Lemma foldl_add_perm (xs ys : list Z) :
  xs ≡ₚ ys → ∀ acc, foldl Z.add acc xs = foldl Z.add acc ys.
Proof.
  induction 1 as [|x xs ys _ IH|x y xs|xs ys zs _ IH1 _ IH2]; intros acc;
    simpl.
  - done.
  - apply IH.
  - f_equal. lia.
  - by rewrite IH1.
Qed.

Lemma py_sum_perm (xs ys : list Z) : xs ≡ₚ ys → py_sum xs = py_sum ys.
Proof. intros Hperm. by apply foldl_add_perm. Qed.

Lemma sorted_perm (xs ys : list Z) : xs ≡ₚ ys → sorted xs = sorted ys.
Proof.
  intros Hperm. symmetry. apply sorted_unique.
  - apply (Sorted_merge_sort Z.le).
  - unfold sorted. by rewrite merge_sort_Permutation.
Qed.

Lemma find_max_score_value (marks_dict : dict Z) :
  marks_dict ≠ [] →
  ∃ name m, find_max_score marks_dict = Ok (name, m) ∧
            m ∈ values marks_dict ∧ Forall (λ y, y <= m) (values marks_dict).
Proof.
  intros Hne.
  assert (values marks_dict ≠ []) as Hvalues by by destruct marks_dict.
  destruct (py_max_spec _ Hvalues) as (m & Hmax & Hin & Hbound).
  destruct (next_first_match marks_dict m Hin) as (_ & name & _ & _ & _ & Hnext).
  exists name, m. split; [|done].
  unfold find_max_score, items. destruct marks_dict; [done|].
  cbn [is_empty]. rewrite Hmax; simpl. by rewrite Hnext.
Qed.

Lemma find_min_score_value (marks_dict : dict Z) :
  marks_dict ≠ [] →
  ∃ name m, find_min_score marks_dict = Ok (name, m) ∧
            m ∈ values marks_dict ∧ Forall (λ y, m <= y) (values marks_dict).
Proof.
  intros Hne.
  assert (values marks_dict ≠ []) as Hvalues by by destruct marks_dict.
  destruct (py_min_spec _ Hvalues) as (m & Hmin & Hin & Hbound).
  destruct (next_first_match marks_dict m Hin) as (_ & name & _ & _ & _ & Hnext).
  exists name, m. split; [|done].
  unfold find_min_score, items. destruct marks_dict; [done|].
  cbn [is_empty]. rewrite Hmin; simpl. by rewrite Hnext.
Qed.

Lemma values_perm_empty (d1 d2 : dict Z) :
  values d1 ≡ₚ values d2 → d1 = [] → d2 = [].
Proof.
  intros Hperm ->. apply Permutation_nil_l in Hperm.
  by destruct d2.
Qed.

(** X5: the average, the median, the highest score and the lowest score do
    not depend on the order of the roster: two rosters with the same scores,
    whatever their order and identifiers, give the same four numbers. *)
Theorem statistics_order_independent (d1 d2 : dict Z) :
  values d1 ≡ₚ values d2 →
  calculate_average d1 = calculate_average d2 ∧
  calculate_median d1 = calculate_median d2 ∧
  snd <$> find_max_score d1 = snd <$> find_max_score d2 ∧
  snd <$> find_min_score d1 = snd <$> find_min_score d2.
Proof.
  intros Hperm.
  destruct (decide (d1 = [])) as [Hnil|Hne1].
  { rewrite (values_perm_empty d1 d2 Hperm Hnil). by subst. }
  assert (d2 ≠ []) as Hne2.
  { intros Hnil. symmetry in Hperm. by apply values_perm_empty in Hperm. }
  assert (length d1 = length d2) as Hlen.
  { apply Permutation_length in Hperm. unfold values in Hperm.
    by rewrite !length_fmap in Hperm. }
  split_and!.
  - unfold calculate_average, py_len.
    destruct d1, d2; try done. cbn [is_empty].
    by rewrite (py_sum_perm _ _ Hperm), Hlen.
  - rewrite !calculate_median_nonempty by done. unfold median.
    by rewrite (sorted_perm _ _ Hperm).
  - destruct (find_max_score_value d1 Hne1) as (n1 & m1 & -> & Hin1 & Hb1).
    destruct (find_max_score_value d2 Hne2) as (n2 & m2 & -> & Hin2 & Hb2).
    simpl. f_equal. rewrite Hperm in Hin1. rewrite <- Hperm in Hin2.
    rewrite Forall_forall in Hb1, Hb2.
    specialize (Hb1 _ Hin2). specialize (Hb2 _ Hin1). lia.
  - destruct (find_min_score_value d1 Hne1) as (n1 & m1 & -> & Hin1 & Hb1).
    destruct (find_min_score_value d2 Hne2) as (n2 & m2 & -> & Hin2 & Hb2).
    simpl. f_equal. rewrite Hperm in Hin1. rewrite <- Hperm in Hin2.
    rewrite Forall_forall in Hb1, Hb2.
    specialize (Hb1 _ Hin2). specialize (Hb2 _ Hin1). lia.
Qed.

Lemma statistics_order_independent_witness :
  values tie_roster ≡ₚ values [("Z", 40); ("Y", 90); ("X", 90)] ∧
  calculate_median tie_roster =
    calculate_median [("Z", 40); ("Y", 90); ("X", 90)].
Proof.
  assert (values tie_roster ≡ₚ values [("Z", 40); ("Y", 90); ("X", 90)])
    as Hperm by (symmetry; exact (Permutation_cons_append [90; 90] 40)).
  split; [exact Hperm|].
  exact (proj1 (proj2 (statistics_order_independent _ _ Hperm))).
Defined.







(** ** What the input adapters let in *)

Lemma dict_setitem_values {V} (P : V → Prop) (d : dict V) (k : string) (v : V) :
  P v → Forall P (values d) → Forall P (values (dict_setitem d k v)).
Proof.
  unfold values. intros Hv. induction d as [|[k' v'] d IH]; simpl.
  - by repeat constructor.
  - intros [Hv' Hd]%Forall_cons. case_decide; simpl.
    + by constructor.
    + constructor; [done|]. by apply IH.
Qed.

Lemma record_all_values (P : Z → Prop) (recs : list (string * Z)) :
  Forall P recs.*2 →
  ∀ d : dict Z, Forall P (values d) → Forall P (values (record_all d recs)).
Proof.
  induction recs as [|[k v] recs IH]; simpl; intros Hrecs d Hd; [done|].
  apply Forall_cons in Hrecs as [Hv Hrecs].
  apply IH; [done|]. by apply dict_setitem_values.
Qed.

Section ImportAccounting.
Variable strip : string → string.
Variable int : string → option Z.

Lemma valid_record_range (row : list string) (r : string * Z) :
  valid_record strip int row = Some r → 0 <= r.2 <= 100.
Proof.
  unfold valid_record. destruct row as [|field0 [|field1 row]]; try done.
  destruct (int (strip field1)) as [mark|]; simpl; [|done].
  case_decide; [|done]. by intros [= <-].
Qed.

Lemma valid_records_range (rows : list (list string)) :
  Forall (λ y, 0 <= y <= 100) (valid_records strip int rows).*2.
Proof.
  unfold valid_records. apply Forall_fmap, Forall_forall.
  intros r (row & _ & Hrow)%list_elem_of_omap.
  by apply valid_record_range in Hrow.
Qed.

Lemma import_rows_keys (rows : list (list string)) :
  keys (marks (import_rows strip int rows)) =
    first_occurrences (valid_records strip int rows).*1.
Proof.
  rewrite import_rows_marks, record_all_keys. apply filter_no_keys.
Qed.

Lemma import_row_printed (st : import_state) (row : list string) :
  header_skipped st = true →
  length (printed (import_row strip int st row)) =
    (length (printed st) + length (filter (reported strip int) [row]))%nat.
Proof.
  intros Hskipped. unfold import_row. rewrite Hskipped. cbn [negb].
  rewrite filter_cons, filter_nil.
  destruct (decide (reported strip int row)) as [[Hne Hnone]|Hnot];
    cbn [length]; unfold valid_record, print in *.
  - destruct row as [|field0 [|field1 row]]; [done| |].
    + cbn [printed]. rewrite length_app. simpl. lia.
    + destruct (int (strip field1)) as [mark|]; simpl in *.
      * case_decide; [done|]. cbn [printed]. rewrite length_app. simpl. lia.
      * rewrite length_app. simpl. lia.
  - destruct row as [|field0 [|field1 row]]; [simpl; lia| |].
    + destruct Hnot. by split.
    + destruct (int (strip field1)) as [mark|] eqn:Hint; simpl in *.
      * case_decide; [simpl; lia|]. destruct Hnot. split; [done|].
        unfold valid_record. rewrite Hint; simpl. by rewrite decide_False.
      * destruct Hnot. split; [done|]. unfold valid_record. by rewrite Hint.
Qed.

Lemma import_loop_printed (rows : list (list string)) :
  ∀ st, header_skipped st = true →
  length (printed (foldl (import_row strip int) st rows)) =
    (length (printed st) + length (filter (reported strip int) rows))%nat.
Proof.
  induction rows as [|row rows IH]; intros st Hskipped; simpl; [lia|].
  destruct (import_row_marks strip int st row Hskipped) as [Hskipped' _].
  rewrite (IH _ Hskipped'), (import_row_printed _ _ Hskipped).
  rewrite (filter_cons _ row rows), filter_cons, filter_nil.
  case_decide; simpl; lia.
Qed.

(** X8: whatever the file holds, the imported roster satisfies the roster
    invariant: every score is between 0 and 100. *)
Theorem import_scores_in_range (rows : list (list string)) :
  Forall (λ score, 0 <= score <= 100)
    (values (marks (import_rows strip int rows))).
Proof.
  rewrite import_rows_marks.
  apply record_all_values; [apply valid_records_range|constructor].
Qed.

(** X9: the import accounts for every row after the header: it prints one
    message for each row that is neither blank nor a valid record, and
    nothing for the others. *)
Theorem import_reports_each_bad_row (rows : list (list string)) :
  length (printed (import_rows strip int rows)) =
    length (filter (reported strip int) (tail rows)).
Proof.
  unfold import_rows. destruct rows as [|header rows]; [done|].
  simpl. by rewrite import_loop_printed.
Qed.

(** X10: [import_csv_data] reads the file name from standard input and
    raises [EOFError] when there is no line.  Otherwise it prints a banner
    and returns: the empty roster with a not-found message when the file
    does not exist; else the roster of the rows that were read, and its last
    message is the text of the exception when reading failed, the
    no-valid-data message when no record is valid, and otherwise the number
    of distinct identifiers among the valid records (not the number of
    valid rows). *)
Theorem import_csv_data_report (files : string → file_read)
    (line : string) (rest : list string) :
  import_csv_data strip int files [] = ImportEndOfInput [AskFileName] ∧
  match files (strip line) with
  | NoSuchFile =>
      import_csv_data strip int files (line :: rest) =
        ImportReturns [] rest
          [AskFileName; ImportBanner (strip line); FileNotFound (strip line)]
  | ReadsRows rows failure =>
      import_csv_data strip int files (line :: rest) =
        ImportReturns (marks (import_rows strip int rows)) rest
          ([AskFileName; ImportBanner (strip line)] ++
           printed (import_rows strip int rows) ++
           [match failure with
            | Some error => ImportFailed error
            | None =>
                if decide (valid_records strip int rows = []) then NoValidData
                else Imported
                       (py_len (first_occurrences
                                  (valid_records strip int rows).*1))
            end])
  end.
Proof.
  split; [done|]. unfold import_csv_data.
  destruct (files (strip line)) as [|rows failure]; [done|].
  do 3 f_equal. destruct failure as [error|]; [done|]. f_equal.
  pose proof (import_rows_keys rows) as Hkeys.
  destruct (valid_records strip int rows) as [|r recs] eqn:Hrecs.
  - simpl in Hkeys. destruct (marks _); [done|discriminate Hkeys].
  - rewrite decide_False by done. unfold py_len.
    rewrite <- Hkeys. unfold keys. rewrite length_fmap.
    destruct (marks _); [discriminate Hkeys|done].
Qed.
End ImportAccounting.

(** ** Manual entry *)

(** Induction that follows the loop, which reads two lines at a time. *)
Lemma list_pairs_ind {A} (P : list A → Prop) :
  P [] → (∀ x, P [x]) → (∀ x y l, P l → P (x :: y :: l)) → ∀ l, P l.
Proof.
  intros Hnil Hone Hstep.
  assert (∀ l, P l ∧ ∀ x, P (x :: l)) as Hboth.
  { induction l as [|y l [IH1 IH2]]; [by split|]. split; [apply IH2|].
    intros x. by apply Hstep. }
  intros l. apply Hboth.
Qed.

Section ManualEntryFacts.
Variable strip : string → string.
Variable lower : string → string.
Variable int : string → option Z.

Lemma entry_invariant_setitem (marks : dict Z) (name : string) (mark : Z) :
  entry_invariant lower marks → lower name ≠ "done" → 0 <= mark <= 100 →
  entry_invariant lower (dict_setitem marks name mark).
Proof.
  intros (Hwf & Hrange & Hnames) Hname Hmark. split_and!.
  - by apply dict_wf_setitem.
  - by apply dict_setitem_values.
  - rewrite keys_dict_setitem. case_decide; [done|].
    apply Forall_app. split; [done|]. by repeat constructor.
Qed.

Lemma entry_loop_invariant (lines : list string) :
  ∀ marks printed marks' rest printed',
  entry_invariant lower marks →
  entry_loop strip lower int lines marks printed =
    Entered marks' rest printed' →
  entry_invariant lower marks' ∧ rest `suffix_of` lines.
Proof.
  induction lines as [|line|line1 line2 lines IH] using list_pairs_ind;
    intros marks printed marks' rest printed' Hinv; simpl.
  - done.
  - case_decide; [|done]. intros [= <- <- <-]. split; [done|].
    by apply suffix_cons_r.
  - case_decide.
    { intros [= <- <- <-]. split; [done|]. by apply suffix_cons_r. }
    assert (∀ marks1 printed1,
              entry_invariant lower marks1 →
              entry_loop strip lower int lines marks1 printed1 =
                Entered marks' rest printed' →
              entry_invariant lower marks' ∧
              rest `suffix_of` line1 :: line2 :: lines) as Hnext.
    { intros marks1 printed1 Hinv1 Hloop.
      destruct (IH _ _ _ _ _ Hinv1 Hloop) as [? ?].
      split; [done|]. by do 2 apply suffix_cons_r. }
    destruct (int (strip line2)) as [mark|]; [|by apply Hnext].
    case_decide; [|by apply Hnext].
    apply Hnext. by apply entry_invariant_setitem.
Qed.

Lemma entered_records_cons (name_line mark_line : string)
    (entries : list (string * string)) :
  omap (entered_record strip int) ((name_line, mark_line) :: entries) =
    match int (strip mark_line) with
    | Some mark =>
        if decide (0 <= mark <= 100)
        then (strip name_line, mark) :: omap (entered_record strip int) entries
        else omap (entered_record strip int) entries
    | None => omap (entered_record strip int) entries
    end.
Proof.
  cbn [omap list_omap]. unfold entered_record at 1. cbn [fst snd].
  destruct (int (strip mark_line)) as [mark|]; [|done]. simpl.
  by case_decide.
Qed.

Lemma entry_loop_typed (entries : list (string * string)) :
  Forall (λ entry, ¬ ends_entry strip lower entry.1) entries →
  ∀ (lines : list string) (marks : dict Z) (printed : list entry_message),
  ∃ printed',
    entry_loop strip lower int (typed_lines entries ++ lines) marks printed =
    entry_loop strip lower int lines
      (record_all marks (omap (entered_record strip int) entries)) printed'.
Proof.
  unfold ends_entry.
  induction 1 as [|[name_line mark_line] entries Hname _ IH];
    intros lines marks printed.
  - by eexists.
  - cbn [typed_lines mbind list_bind app fst snd] in *.
    cbn [entry_loop]. rewrite decide_False by done.
    rewrite entered_records_cons.
    destruct (int (strip mark_line)) as [mark|]; [|apply IH].
    case_decide; apply IH.
Qed.

Lemma valid_records_of_entries (entries : list (string * string)) :
  omap (valid_record strip int) ((λ entry, [entry.1; entry.2]) <$> entries) =
    omap (entered_record strip int) entries.
Proof.
  induction entries as [|[name_line mark_line] entries IH]; [done|].
  rewrite entered_records_cons, fmap_cons. cbn [omap list_omap fst snd] in *.
  rewrite IH. unfold valid_record.
  destruct (int (strip mark_line)) as [mark|]; [|done]. simpl.
  by case_decide.
Qed.

(** X11: when the manual entry returns, its roster satisfies the roster
    invariant: the identifiers are distinct, every score is between 0 and
    100, and no identifier reads "done" in lower case (such a name ends the
    entry instead); the lines it leaves unread are the end of its input. *)
Theorem manual_entry_roster_invariant (lines : list string)
    (roster : dict Z) (rest : list string) (printed : list entry_message) :
  manual_data_entry strip lower int lines = Entered roster rest printed →
  dict_wf roster ∧
  Forall (λ score, 0 <= score <= 100) (values roster) ∧
  Forall (λ name, lower name ≠ "done") (keys roster) ∧
  rest `suffix_of` lines.
Proof.
  intros Hentry. apply entry_loop_invariant in Hentry as [(? & ? & ?) ?].
  - done.
  - split_and!; constructor.
Qed.

(** X12: when every pair of lines is a name and a mark, and the next name
    line reads "done", the manual entry returns the roster in which each
    valid pair was assigned in turn, pairs whose mark is not an integer from
    0 to 100 being dropped, and it leaves the lines after "done" unread. *)
Theorem manual_entry_until_done (entries : list (string * string))
    (stop : string) (rest : list string) :
  Forall (λ entry, ¬ ends_entry strip lower entry.1) entries →
  ends_entry strip lower stop →
  ∃ printed,
    manual_data_entry strip lower int (typed_lines entries ++ stop :: rest) =
      Entered (record_all [] (omap (entered_record strip int) entries))
              rest printed.
Proof.
  intros Hentries Hstop. unfold manual_data_entry.
  destruct (entry_loop_typed entries Hentries (stop :: rest) [] [EntryBanner])
    as [printed' ->].
  simpl. rewrite decide_True by done. by eexists.
Qed.

(** X13: without a line that reads "done" the manual entry never returns a
    roster: it reads its input to the end and [input] raises [EOFError]. *)
Theorem manual_entry_needs_done (lines : list string) :
  Forall (λ line, ¬ ends_entry strip lower line) lines →
  ∃ printed, manual_data_entry strip lower int lines = EndOfInput printed.
Proof.
  unfold manual_data_entry, ends_entry.
  generalize (@nil (string * Z)) [EntryBanner].
  induction lines as [|line|line1 line2 lines IH] using list_pairs_ind;
    intros marks printed Hlines; simpl.
  - by eexists.
  - apply Forall_cons in Hlines as [Hline _].
    rewrite decide_False by done. by eexists.
  - apply Forall_cons in Hlines as [Hline1 [_ Hlines]%Forall_cons].
    rewrite decide_False by done.
    destruct (int (strip line2)) as [mark|]; [|by apply IH].
    case_decide; by apply IH.
Qed.

(** X14: typing the records by hand gives the roster that importing them
    from a file gives: the entry of name and mark lines closed by "done" and
    the import of the file with a header and one row per name and mark
    return the same roster. *)
Theorem manual_entry_matches_import (entries : list (string * string))
    (stop : string) (header : list string) :
  Forall (λ entry, ¬ ends_entry strip lower entry.1) entries →
  ends_entry strip lower stop →
  ∃ printed,
    manual_data_entry strip lower int (typed_lines entries ++ [stop]) =
      Entered
        (marks (import_rows strip int
                  (header :: ((λ entry, [entry.1; entry.2]) <$> entries))))
        [] printed.
Proof.
  intros Hentries Hstop.
  unfold manual_data_entry.
  destruct (entry_loop_typed entries Hentries [stop] [] [EntryBanner])
    as [printed' ->].
  simpl. rewrite decide_True by done. eexists. f_equal.
  rewrite import_rows_marks. unfold valid_records. cbn [tail].
  by rewrite valid_records_of_entries.
Qed.
End ManualEntryFacts.

Lemma manual_entry_roster_invariant_witness :
  manual_data_entry strip_ascii lower_ascii int_ascii
    ["Ann"; "90"; " Done "; "x"] = Entered [("Ann", 90)] ["x"]
      [EntryBanner; AskName; AskMark "Ann"; AskName] ∧
  Forall (λ name, lower_ascii name ≠ "done") (keys [("Ann", 90)]).
Proof.
  assert (manual_data_entry strip_ascii lower_ascii int_ascii
            ["Ann"; "90"; " Done "; "x"] = Entered [("Ann", 90)] ["x"]
              [EntryBanner; AskName; AskMark "Ann"; AskName]) as Hentry
    by reflexivity.
  split; [exact Hentry|].
  exact (proj1 (proj2 (proj2
    (manual_entry_roster_invariant _ _ _ _ _ _ _ Hentry)))).
Defined.

Lemma typed_entries_do_not_end :
  Forall (λ entry : string * string,
            ¬ ends_entry strip_ascii lower_ascii entry.1)
    [("Ann", "90"); ("Bob", "abc"); ("Ann", " 70")].
Proof. repeat constructor; intros H; vm_compute in H; discriminate H. Qed.

Lemma manual_entry_until_done_witness :
  ends_entry strip_ascii lower_ascii " DONE " ∧
  ∃ printed,
    manual_data_entry strip_ascii lower_ascii int_ascii
      (typed_lines [("Ann", "90"); ("Bob", "abc"); ("Ann", " 70")]
         ++ " DONE " :: ["x"]) =
      Entered (record_all []
                 (omap (entered_record strip_ascii int_ascii)
                    [("Ann", "90"); ("Bob", "abc"); ("Ann", " 70")]))
              ["x"] printed.
Proof.
  assert (ends_entry strip_ascii lower_ascii " DONE ") as Hstop
    by reflexivity.
  split; [exact Hstop|].
  exact (manual_entry_until_done strip_ascii lower_ascii int_ascii _ _ _
           typed_entries_do_not_end Hstop).
Defined.

Lemma manual_entry_needs_done_witness :
  Forall (λ line, ¬ ends_entry strip_ascii lower_ascii line)
    ["Ann"; "90"; "Bob"] ∧
  ∃ printed,
    manual_data_entry strip_ascii lower_ascii int_ascii ["Ann"; "90"; "Bob"] =
      EndOfInput printed.
Proof.
  assert (Forall (λ line, ¬ ends_entry strip_ascii lower_ascii line)
            ["Ann"; "90"; "Bob"]) as Hlines
    by (repeat constructor; intros H; vm_compute in H; discriminate H).
  split; [exact Hlines|].
  exact (manual_entry_needs_done strip_ascii lower_ascii int_ascii _ Hlines).
Defined.

Lemma manual_entry_matches_import_witness :
  ends_entry strip_ascii lower_ascii "done" ∧
  ∃ printed,
    manual_data_entry strip_ascii lower_ascii int_ascii
      (typed_lines [("Ann", "90"); ("Bob", "abc"); ("Ann", " 70")]
         ++ ["done"]) =
      Entered
        (marks (import_rows strip_ascii int_ascii
                  (["Name"; "Mark"] ::
                   ((λ entry : string * string, [entry.1; entry.2]) <$>
                      [("Ann", "90"); ("Bob", "abc"); ("Ann", " 70")]))))
        [] printed.
Proof.
  assert (ends_entry strip_ascii lower_ascii "done") as Hstop by reflexivity.
  split; [exact Hstop|].
  exact (manual_entry_matches_import strip_ascii lower_ascii int_ascii _ _ _
           typed_entries_do_not_end Hstop).
Defined.

(** ** The results table *)

Lemma string_length_app (s1 s2 : string) :
  String.length (s1 +:+ s2) = (String.length s1 + String.length s2)%nat.
Proof. induction s1 as [|c s1 IH]; simpl; [done|]. by rewrite IH. Qed.

Lemma length_spaces (n : nat) : String.length (str_repeat " " n) = n.
Proof.
  induction n as [|n IH]; [done|]. cbn [str_repeat].
  rewrite string_length_app, IH. done.
Qed.

(** A column is as wide as asked, or as its text when that is longer. *)
Lemma length_ljust (s : string) (width : nat) :
  String.length (ljust s width) = Nat.max (String.length s) width.
Proof. unfold ljust. rewrite string_length_app, length_spaces. lia. Qed.

Lemma length_table_line (name marks grade : string) :
  String.length (table_line name marks grade) =
    (Nat.max (String.length name) 20 + 1 +
     (Nat.max (String.length marks) 10 + 1) +
     Nat.max (String.length grade) 10)%nat.
Proof.
  unfold table_line. rewrite !string_length_app, !length_ljust.
  unfold NAME_WIDTH, MARKS_WIDTH, GRADE_WIDTH. simpl. lia.
Qed.

Lemma length_str_of_score (mark : Z) :
  0 <= mark <= 100 → (String.length (str_of_int mark) <= 3)%nat.
Proof.
  intros Hmark.
  assert (Forall (λ m, String.length (str_of_int m) <= 3)%nat (seqZ 0 101))
    as Hall by (apply (bool_decide_unpack _); by vm_compute).
  rewrite Forall_forall in Hall. apply Hall, elem_of_seqZ. lia.
Qed.

Lemma table_lookup_row (marks_dict : dict Z) (grades_dict : dict string)
    (i : nat) (item : string * Z) :
  marks_dict !! i = Some item →
  print_results_table marks_dict grades_dict !! (5 + i)%nat =
    Some (table_row grades_dict item).
Proof.
  intros Hitem. unfold print_results_table, items.
  destruct marks_dict as [|item' marks_dict]; [done|]. cbn [is_empty].
  rewrite lookup_app_r by (simpl; lia).
  replace (5 + i - length _)%nat with i by (simpl; lia).
  apply lookup_app_l_Some. by rewrite list_lookup_fmap, Hitem.
Qed.

(** X15: the table printed after the grades were generated from the same
    roster has one line per student between its five heading lines and its
    closing line, in roster order, and each line shows the grade of the
    score: the "N/A" of a missing grade never appears. *)
Theorem results_table_shows_grades (marks_dict : dict Z) :
  dict_wf marks_dict → marks_dict ≠ [] →
  ∃ grades distribution,
    generate_grades_and_distribution marks_dict = Ok (grades, distribution) ∧
    length (print_results_table marks_dict grades) =
      (length marks_dict + 6)%nat ∧
    ∀ i name mark,
      marks_dict !! i = Some (name, mark) →
      print_results_table marks_dict grades !! (5 + i)%nat =
        Some (table_line name (str_of_int mark) (assign_grade mark)).
Proof.
  intros Hwf Hne. unfold generate_grades_and_distribution, items.
  pose proof (for_each_grade_counts marks_dict [] 0 0 0 0 0) as Hloop.
  rewrite graded_fresh in Hloop by done. simpl in Hloop.
  set (grades := (λ item : string * Z, (item.1, assign_grade item.2))
                   <$> marks_dict) in *.
  assert (dict_wf grades) as Hwf'.
  { unfold dict_wf, keys, grades. by rewrite <- list_fmap_compose. }
  eexists grades, _. split; [exact Hloop|]. split.
  - unfold print_results_table, items. destruct marks_dict; [done|].
    cbn [is_empty]. rewrite !length_app, length_fmap. simpl. lia.
  - intros i name mark Hitem.
    rewrite (table_lookup_row _ _ _ _ Hitem). unfold table_row.
    rewrite (elem_dict_get grades name (assign_grade mark) Hwf'); [done|].
    apply list_elem_of_fmap. exists (name, mark). split; [done|].
    by eapply list_elem_of_lookup_2.
Qed.

Lemma results_table_shows_grades_witness :
  dict_wf tie_roster ∧ tie_roster ≠ [] ∧
  ∃ grades distribution,
    generate_grades_and_distribution tie_roster = Ok (grades, distribution) ∧
    print_results_table tie_roster grades !! 7%nat =
      Some "C                    40         F         ".
Proof.
  assert (dict_wf tie_roster) as Hwf.
  { unfold dict_wf. apply (bool_decide_unpack _). vm_compute. exact I. }
  assert (tie_roster ≠ []) as Hne by discriminate.
  split; [exact Hwf|]. split; [exact Hne|].
  destruct (results_table_shows_grades tie_roster Hwf Hne)
    as (grades & distribution & Hg & _ & Hrows).
  exists grades, distribution. split; [exact Hg|].
  exact (Hrows 2%nat "C" 40 eq_refl).
Defined.

(** X16: a line of the table is never cut: for a score from 0 to 100 and
    grades of at most 10 characters, the line of a student is 42 characters
    wide, like the heading line, when the name has at most 20 characters,
    and wider by the excess of the name otherwise. *)
Theorem results_table_row_width (marks_dict : dict Z)
    (grades_dict : dict string) (i : nat) (name : string) (mark : Z) :
  marks_dict !! i = Some (name, mark) →
  0 <= mark <= 100 →
  Forall (λ grade, String.length grade <= 10)%nat (values grades_dict) →
  ∃ heading line,
    print_results_table marks_dict grades_dict !! 3%nat = Some heading ∧
    String.length heading = 42%nat ∧
    print_results_table marks_dict grades_dict !! (5 + i)%nat = Some line ∧
    String.length line = (Nat.max (String.length name) 20 + 22)%nat.
Proof.
  intros Hitem Hmark Hgrades.
  eexists _, _. split_and!.
  - unfold print_results_table. destruct marks_dict; [done|]. reflexivity.
  - reflexivity.
  - by apply table_lookup_row.
  - unfold table_row. rewrite length_table_line.
    pose proof (length_str_of_score mark Hmark) as Hdigits.
    assert (String.length (default "N/A" (dict_get grades_dict name)) <= 10)%nat
      as Hgrade.
    { destruct (dict_get grades_dict name) as [grade|] eqn:Hget;
        [|simpl; lia].
      apply dict_get_Some_elem in Hget. rewrite Forall_forall in Hgrades.
      apply Hgrades. unfold values. apply list_elem_of_fmap.
      by exists (name, grade). }
    lia.
Qed.

Lemma results_table_row_width_witness :
  tie_roster !! 1%nat = Some ("B", 90) ∧ 0 <= 90 <= 100 ∧
  ∃ line,
    print_results_table tie_roster [("B", "A")] !! 6%nat = Some line ∧
    String.length line = 42%nat.
Proof.
  split; [reflexivity|]. split; [lia|].
  destruct (results_table_row_width tie_roster [("B", "A")] 1 "B" 90)
    as (heading & line & _ & _ & Hline & Hwidth).
  - reflexivity.
  - lia.
  - repeat constructor.
  - exists line. split; [exact Hline | exact Hwidth].
Defined.

(** ** No analysis raises *)

(** X17: on every roster in the score range, empty or not, the five
    analyses return a value: the division by the size, [max], [min] and
    [next], the indexing and the division inside the median and the lookup
    of a letter in the distribution never raise. *)
Theorem analyses_never_raise (marks_dict : dict Z) :
  score_range marks_dict →
  (∃ average, calculate_average marks_dict = Ok average) ∧
  (∃ med, calculate_median marks_dict = Ok med) ∧
  (∃ top, find_max_score marks_dict = Ok top) ∧
  (∃ bottom, find_min_score marks_dict = Ok bottom) ∧
  (∃ graded, generate_grades_and_distribution marks_dict = Ok graded).
Proof.
  intros Hrange. split_and!.
  - destruct (decide (marks_dict = [])) as [->|Hne]; [by eexists|].
    destruct (calculate_average_rounds marks_dict 0 100 Hne)
      as (average & Haverage & _); [lia|lia|done|].
    by exists average.
  - destruct (decide (marks_dict = [])) as [->|Hne]; [by eexists|].
    rewrite (calculate_median_nonempty _ Hne).
    assert (values marks_dict ≠ []) as Hvalues by by destruct marks_dict.
    destruct (median_sorted_perm _ _ Hvalues Hrange
                (Sorted_merge_sort Z.le (values marks_dict))
                (merge_sort_Permutation Z.le (values marks_dict)))
      as [Hodd Heven].
    destruct (Nat.even (length (values marks_dict))) eqn:Hparity.
    + destruct Heven as (x & y & f & _ & _ & -> & _); [done|]. by eexists.
    + destruct Hodd as (x & _ & ->); [|by eexists].
      rewrite <- Nat.negb_even, Hparity. done.
  - destruct (decide (marks_dict = [])) as [->|Hne]; [by eexists|].
    destruct (find_max_score_value _ Hne) as (name & m & -> & _).
    by eexists.
  - destruct (decide (marks_dict = [])) as [->|Hne]; [by eexists|].
    destruct (find_min_score_value _ Hne) as (name & m & -> & _).
    by eexists.
  - unfold generate_grades_and_distribution, items.
    eexists. exact (for_each_grade_counts marks_dict [] 0 0 0 0 0).
Qed.

Lemma analyses_never_raise_witness :
  score_range class_roster ∧
  ∃ average, calculate_average class_roster = Ok average.
Proof.
  assert (score_range class_roster) as Hrange by in_range.
  split; [exact Hrange|].
  exact (proj1 (analyses_never_raise class_roster Hrange)).
Defined.
